(** * SDM-KMS: ingestion pipeline, chat session cache, wiki graph store and
      snapshot import, embedded from [services/geminiService.ts] and [App.tsx].

    A JavaScript string is a sequence of UTF-16 code units.  The chunker only
    indexes its text and compares code units with the line feed and the full
    stop, so the text it works on is a [list ascii]; every other string of the
    program is a [string]. Indices and sizes are integers ([Z]): the code's
    [number]s take integer values at every index computation. *)

From Stdlib Require Import ZArith Lia List Ascii String.
From stdpp Require Import base option list strings pretty gmap.
Import ListNotations.

Local Open Scope Z_scope.
Set Warnings "-register-all,-abstract-large-number,-clear-no-such-hyp".

(* ===================================================================== *)
(** * Part I. Definitions                                                 *)
(* ===================================================================== *)

(** ** JavaScript string primitives used by the chunker *)

Definition newline : ascii := ascii_of_nat 10.
Definition period : ascii := "."%char.

Definition len (text : list ascii) : Z := Z.of_nat (length text).

(** [scan_back text c n] is the largest index [k < n] with [text[k] = c],
    and [-1] when there is none: the backward scan of [lastIndexOf]. *)
Fixpoint scan_back (text : list ascii) (c : ascii) (n : nat) : Z :=
  match n with
  | O => -1
  | S k => if bool_decide (text !! k = Some c) then Z.of_nat k
           else scan_back text c k
  end.

(** [text.lastIndexOf(c, position)] for a one-unit search string: the start
    of the scan is [position] clamped between [0] and [text.length - 1]. *)
Definition lastIndexOf (text : list ascii) (c : ascii) (position : Z) : Z :=
  let start := Z.min (Z.max position 0) (len text - 1) in
  scan_back text c (Z.to_nat (start + 1)).

(** Relative index of [slice]: a negative argument counts from the end. *)
Definition rel_index (text : list ascii) (k : Z) : Z :=
  if k <? 0 then Z.max (len text + k) 0 else Z.min k (len text).

(** [text.slice(from, to)]. *)
Definition slice (text : list ascii) (from to : Z) : list ascii :=
  let a := rel_index text from in
  let b := rel_index text to in
  take (Z.to_nat (b - a)) (drop (Z.to_nat a) text).

(** ** chunkText *)

(** [x > i + chunkSize * 0.8] on integers [x], [i], [chunkSize], written
    without the fraction: [5 * (x - i) > 4 * chunkSize]. *)
Definition past_floor (x i chunkSize : Z) : bool :=
  4 * chunkSize <? 5 * (x - i).

(** The body of one iteration up to the push: the value of [end] with which
    the piece [text.slice(i, end)] is cut. *)
Definition cut_end (text : list ascii) (chunkSize i : Z) : Z :=
  let end0 := Z.min (i + chunkSize) (len text) in
  if end0 <? len text then
    let lastNewline := lastIndexOf text newline end0 in
    if past_floor lastNewline i chunkSize then lastNewline + 1
    else
      let lastPeriod := lastIndexOf text period end0 in
      if past_floor lastPeriod i chunkSize then lastPeriod + 1 else end0
  else end0.

(** [while (i < text.length) { ...; chunks.push(text.slice(i, end)); i = end }].
    The loop is run with fuel; [None] means the fuel ran out. *)
Fixpoint chunk_loop (fuel : nat) (text : list ascii) (chunkSize i : Z)
    (chunks : list (list ascii)) : option (list (list ascii)) :=
  if i <? len text then
    match fuel with
    | O => None
    | S fuel' =>
        let e := cut_end text chunkSize i in
        chunk_loop fuel' text chunkSize e (chunks ++ [slice text i e])
    end
  else Some chunks.

Definition chunkText (fuel : nat) (text : list ascii) (chunkSize : Z)
    : option (list (list ascii)) :=
  if len text <=? chunkSize then Some [text]
  else chunk_loop fuel text chunkSize 0 [].

Definition default_chunkSize : Z := 50000.

(** A break character accepted by the policy for the piece starting at [i]:
    a line feed or a full stop at an index [k] that [lastIndexOf] can return
    from the cut point and that lies past the 80% floor. *)
Definition safe_break (text : list ascii) (chunkSize i k : Z) : Prop :=
  (text !! Z.to_nat k = Some newline \/ text !! Z.to_nat k = Some period) /\
  0 <= k <= Z.min (i + chunkSize) (len text) /\
  past_floor k i chunkSize = true.

Definition sample_text : list ascii :=
  list_ascii_of_string "abcde" ++ [newline] ++ list_ascii_of_string "fgh".

(** A text of 60001 characters with its only line feed at index 50000. *)
Definition long_text : list ascii :=
  replicate (Z.to_nat 50000) "a"%char ++ [newline]
  ++ replicate (Z.to_nat 10000) "b"%char.

(** ** Values and exceptions *)

(** What [JSON.parse] returns.  Numbers are restricted to the integers; an
    object keeps its members in source order, a later member of the same
    name hiding an earlier one. *)
Inductive JSON : Type :=
| JNull
| JBool (b : bool)
| JNum (n : Z)
| JStr (s : string)
| JArr (items : list JSON)
| JObj (members : list (string * JSON)).

(** A computation that returns or throws. *)
Inductive Result (A : Type) : Type :=
| Ok (a : A)
| Throw (message : string).
Arguments Ok {A} a.
Arguments Throw {A} message.

#[global] Instance Result_ret : MRet Result := fun A a => Ok a.
#[global] Instance Result_bind : MBind Result := fun A B k r =>
  match r with
  | Ok a => k a
  | Throw m => Throw m
  end.

(** [try { body } catch { handler }] *)
Definition try_catch {A} (body : Result A) (handler : string -> A) : A :=
  match body with
  | Ok a => a
  | Throw m => handler m
  end.

Fixpoint lookup_member (key : string) (members : list (string * JSON))
    : option JSON :=
  match members with
  | [] => None
  | (k, v) :: rest =>
      match lookup_member key rest with
      | Some w => Some w
      | None => if String.eqb k key then Some v else None
      end
  end.

(** [v.key] for one of the data keys of this program: [None] is [undefined];
    reading a property of [null] throws a [TypeError]. *)
Definition prop (v : JSON) (key : string) : Result (option JSON) :=
  match v with
  | JNull => Throw "TypeError: Cannot read properties of null"
  | JObj members => Ok (lookup_member key members)
  | _ => Ok None
  end.

(** Truthiness of a value that may be [undefined]. *)
Definition truthy (v : option JSON) : bool :=
  match v with
  | None | Some JNull => false
  | Some (JBool b) => b
  | Some (JNum n) => negb (n =? 0)
  | Some (JStr s) => negb (String.eqb s "")
  | Some (JArr _) | Some (JObj _) => true
  end.

Definition nl : string := String newline "".

Fixpoint join (sep : string) (l : list string) : string :=
  match l with
  | [] => ""
  | [x] => x
  | x :: rest => x ++ sep ++ join sep rest
  end.

(** [String(v)], as [Array.prototype.join] and template literals apply it. *)
Fixpoint toString (v : JSON) : string :=
  match v with
  | JNull => "null"
  | JBool true => "true"
  | JBool false => "false"
  | JNum n => pretty n
  | JStr s => s
  | JArr items =>
      join "," (map (fun x => match x with JNull => "" | _ => toString x end)
                    items)
  | JObj _ => "[object Object]"
  end.

Definition toString_opt (v : option JSON) : string :=
  match v with
  | None => "undefined"
  | Some x => toString x
  end.

(** [SameValueZero], the equality of [Set].  Every object and array that
    [JSON.parse] or a literal creates is a reference of its own, so two
    of them met in one sequence are never the same value. *)
Definition sameValueZero (a b : JSON) : bool :=
  match a, b with
  | JNull, JNull => true
  | JBool x, JBool y => Bool.eqb x y
  | JNum x, JNum y => x =? y
  | JStr x, JStr y => String.eqb x y
  | _, _ => false
  end.

(** [Array.from(new Set(l))]: insertion order, first occurrence kept. *)
Fixpoint set_from_aux (seen l : list JSON) : list JSON :=
  match l with
  | [] => []
  | x :: rest =>
      if existsb (sameValueZero x) seen then set_from_aux seen rest
      else x :: set_from_aux (x :: seen) rest
  end.

Definition Array_from_Set (l : list JSON) : list JSON := set_from_aux [] l.

(** ** Data model ([types.ts]) *)

Record Risk := { risk : string; category : string }.

Record ProcessedData := {
  summary : string;
  topics : list string;
  risks : list Risk;
  keyPoints : list string;
  entities : list string
}.

(** [processedData] holds whatever value ingestion returned or a snapshot
    carried; [None] is an absent property. *)
Record LocalFile := {
  file_id : string;
  file_name : string;
  file_content : string;
  file_type : string;
  file_size : Z;
  file_timestamp : Z;
  file_summary : option string;
  file_processedData : option JSON;
  file_isProcessing : option bool
}.

(** The JSON value of a typed record. *)
Definition Risk_json (r : Risk) : JSON :=
  JObj [("risk", JStr (risk r)); ("category", JStr (category r))].

Definition ProcessedData_json (p : ProcessedData) : JSON :=
  JObj [("summary", JStr (summary p));
        ("topics", JArr (map JStr (topics p)));
        ("risks", JArr (map Risk_json (risks p)));
        ("keyPoints", JArr (map JStr (keyPoints p)));
        ("entities", JArr (map JStr (entities p)))].

Definition has_member (v : JSON) (key : string) : bool :=
  match v with
  | JObj members => bool_decide (is_Some (lookup_member key members))
  | _ => false
  end.

(** All five fields of [ProcessedData] are present. *)
Definition structurally_complete (v : JSON) : bool :=
  has_member v "summary" && has_member v "topics" && has_member v "risks"
  && has_member v "keyPoints" && has_member v "entities".

(** ** Model transport *)

Inductive Part : Type :=
| TextPart (text : string)
| InlineData (mimeType data : string).

(** [response.text] is [undefined] ([None]) or a string. *)
Record Response := { response_text : option string }.

(** ** Ingestion *)

Definition empty_structure : JSON :=
  JObj [("summary", JStr ""); ("topics", JArr []); ("risks", JArr []);
        ("keyPoints", JArr []); ("entities", JArr [])].

Definition analysis_failed : JSON :=
  JObj [("summary", JStr "Analysis failed."); ("topics", JArr []);
        ("risks", JArr []); ("keyPoints", JArr []); ("entities", JArr [])].

Definition task_text : string :=
  nl ++ nl ++ "TASK: " ++ nl ++
  "    1. Write a concise summary of this section." ++ nl ++
  "    2. List key topics/concepts." ++ nl ++
  "    3. List explicit or implied risks and CATEGORIZE them using PESTLE (Political, Economic, Social, Technological, Legal, Environmental) or Operational." ++ nl ++
  "    4. Extract key data points." ++ nl ++
  "    5. List key entities." ++ nl ++
  "    " ++ nl ++
  "    Output strictly valid JSON.".

(** [r.key || []] handed to [flatMap]: an array contributes its items, any
    other truthy value contributes itself. *)
Definition items_or_empty (v : option JSON) : list JSON :=
  if truthy v then
    match v with
    | Some (JArr items) => items
    | Some x => [x]
    | None => []
    end
  else [].

(** [results.flatMap(r => r.key || [])] *)
Fixpoint flatMap_key (key : string) (results : list JSON)
    : Result (list JSON) :=
  match results with
  | [] => Ok []
  | r :: rest =>
      v ← prop r key;
      tail ← flatMap_key key rest;
      Ok (items_or_empty v ++ tail)
  end.

(** [results.map(r => r.summary)] *)
Fixpoint map_summary (results : list JSON) : Result (list (option JSON)) :=
  match results with
  | [] => Ok []
  | r :: rest =>
      v ← prop r "summary";
      tail ← map_summary rest;
      Ok (v :: tail)
  end.

Definition synthesis_marker : string :=
  "...(Synthesized from multiple sections)".

(** The cap on the merged summary. *)
Definition cap_summary (s : string) : string :=
  if 2000 <? Z.of_nat (String.length s)
  then substring 0 2000 s ++ synthesis_marker
  else s.

(** The aggregation step of [processDocumentIngestion]. *)
Definition aggregate (results : list JSON) : Result JSON :=
  summaries ← map_summary results;
  all_topics ← flatMap_key "topics" results;
  all_risks ← flatMap_key "risks" results;
  all_keyPoints ← flatMap_key "keyPoints" results;
  all_entities ← flatMap_key "entities" results;
  let merged :=
    join (nl ++ nl) (map toString_opt (filter (fun s => truthy s = true) summaries)) in
  Ok (JObj [("summary", JStr (cap_summary merged));
            ("topics", JArr (Array_from_Set all_topics));
            ("risks", JArr all_risks);
            ("keyPoints", JArr all_keyPoints);
            ("entities", JArr (Array_from_Set all_entities))]).

Section Ingestion.

(** The two collaborators that are not code of the repository: the model
    call, whose answer may depend on which call of the ingestion it is,
    and [JSON.parse]. *)
Variable generateContent : nat -> list Part -> Result Response.
Variable JSON_parse : string -> Result JSON.

(** [call] numbers the model call within one ingestion. *)
Definition processChunk (call : nat) (chunkText : string) (isPDF : bool)
    (fileName : string) : JSON :=
  let parts :=
    [TextPart ("Analyze this document segment from (" ++ fileName ++
               "). Extract key intelligence." ++ nl);
     if isPDF then InlineData "application/pdf" chunkText
     else TextPart chunkText;
     TextPart task_text] in
  try_catch
    (response ← generateContent call parts;
     match response_text response with
     | None | Some "" => Ok empty_structure
     | Some text => JSON_parse text
     end)
    (fun _ => empty_structure).

(** [for (const chunk of chunks) results.push(await processChunk(...))] *)
Fixpoint process_chunks (call : nat) (chunks : list (list ascii))
    (fileName : string) : list JSON :=
  match chunks with
  | [] => []
  | chunk :: rest =>
      processChunk call (string_of_list_ascii chunk) false fileName
      :: process_chunks (S call) rest fileName
  end.

(** [None]: the chunker ran out of fuel.  A returned value is what the
    promise resolves to; the [try]/[catch] around the whole body leaves
    no way to reject. *)
Definition processDocumentIngestion (file : LocalFile) : option JSON :=
  let isPDF := String.eqb (file_type file) "application/pdf" in
  if isPDF || (Z.of_nat (String.length (file_content file)) <? 60000) then
    Some (try_catch
            (Ok (processChunk 0 (file_content file) isPDF (file_name file)))
            (fun _ => analysis_failed))
  else
    let text := list_ascii_of_string (file_content file) in
    chunks ← chunkText (length text) text default_chunkSize;
    Some (try_catch
            (aggregate (process_chunks 0 chunks (file_name file)))
            (fun _ => analysis_failed)).

End Ingestion.

(** *** The merge policy in the spec's words, on typed chunk results *)

(** A duplicate-free listing of the elements of [l], in the order of
    their first occurrence. *)
Fixpoint first_occurrences_aux (seen l : list string) : list string :=
  match l with
  | [] => []
  | x :: rest =>
      if bool_decide (x ∈ seen) then first_occurrences_aux seen rest
      else x :: first_occurrences_aux (x :: seen) rest
  end.

Definition first_occurrences (l : list string) : list string :=
  first_occurrences_aux [] l.

(** Summaries joined with a blank line and capped; topics and entities
    merged as sets; risks and key points concatenated. *)
Definition merge_spec (results : list ProcessedData) : ProcessedData :=
  {| summary :=
       cap_summary
         (join (nl ++ nl)
               (List.filter (fun s => negb (String.eqb s ""))
                            (map summary results)));
     topics := first_occurrences (concat (map topics results));
     risks := concat (map risks results);
     keyPoints := concat (map keyPoints results);
     entities := first_occurrences (concat (map entities results)) |}.

(** *** Sample documents and collaborators *)

Definition text_file (name0 content0 : string) : LocalFile :=
  {| file_id := "f1"; file_name := name0; file_content := content0;
     file_type := "text/plain";
     file_size := Z.of_nat (String.length content0);
     file_timestamp := 0; file_summary := None;
     file_processedData := None; file_isProcessing := None |}.

(** A model that answers every call with the text [t]. *)
Definition reply_with (t : string) : nat -> list Part -> Result Response :=
  fun _ _ => Ok {| response_text := Some t |}.

(** A model whose every call throws. *)
Definition always_throws : nat -> list Part -> Result Response :=
  fun _ _ => Throw "fetch failed".

(** [JSON.parse] on the one text [t], which denotes [v]. *)
Definition parse_as (t : string) (v : JSON) : string -> Result JSON :=
  fun s => if String.eqb s t then Ok v else Throw "SyntaxError".

Definition chunk_AB : ProcessedData :=
  {| summary := "first"; topics := ["A"; "B"];
     risks := [ {| risk := "r1"; category := "Legal" |} ];
     keyPoints := ["k"]; entities := [] |}.

Definition chunk_BC : ProcessedData :=
  {| summary := "second"; topics := ["B"; "C"];
     risks := [ {| risk := "r2"; category := "Legal" |} ];
     keyPoints := ["k"]; entities := [] |}.

(** A model that answers the first call with the text [AB] and every later
    call with [BC], and the parser that knows these two texts. *)
Definition two_replies : nat -> list Part -> Result Response :=
  fun call _ =>
    Ok {| response_text := Some (if Nat.eqb call 0 then "AB" else "BC") |}.

Definition two_parses : string -> Result JSON :=
  fun s => if String.eqb s "AB" then Ok (ProcessedData_json chunk_AB)
           else if String.eqb s "BC" then Ok (ProcessedData_json chunk_BC)
           else Throw "SyntaxError".

Definition chunk_AA : ProcessedData :=
  {| summary := "s"; topics := ["A"; "A"]; risks := []; keyPoints := [];
     entities := [] |}.

(** ** Session manager *)

(** [files.map(f => `${f.name}-${f.size}`).join('|')] *)
Definition generateFileHash (files : list LocalFile) : string :=
  join "|" (map (fun f => (file_name f ++ "-" ++ pretty (file_size f))%string)
                files).

Definition is_processed (f : LocalFile) : bool := truthy (file_processedData f).

(** [f.processedData?.summary] rendered in a template literal. *)
Definition summary_text (f : LocalFile) : string :=
  match file_processedData f with
  | None | Some JNull => "undefined"
  | Some v => toString_opt (try_catch (prop v "summary") (fun _ => None))
  end.

Definition instruction_header : string :=
  "You are a helpful, intelligent research assistant capable of analyzing documents." ++ nl.

Definition summaries_intro : string :=
  "Here is a summary of the available knowledge base:" ++ nl.

Definition summary_line (f : LocalFile) : string :=
  "- File: " ++ file_name f ++ nl ++ "  Summary: " ++ summary_text f ++ nl.

Definition summaries_outro : string :=
  nl ++ "Use this high-level context to answer questions. If specific details are needed, you can refer to the raw file content provided in the history.".

Definition generic_rules : string :=
  "RULES:" ++ nl ++
  "      1. Strictly use the provided file content as your primary source of truth." ++ nl ++
  "      2. If the answer is not in the files, state that clearly." ++ nl ++
  "      3. Be concise but thorough.".

(** The instruction built from the summaries of the files in [processed]. *)
Definition summaries_instruction (processed : list LocalFile) : string :=
  (fold_left (fun context f => (context ++ summary_line f)%string) processed
             (instruction_header ++ summaries_intro)
   ++ summaries_outro)%string.

Definition generic_instruction : string := instruction_header ++ generic_rules.

Definition getSystemInstruction (files : list LocalFile) : string :=
  let processedFiles := List.filter is_processed files in
  if 0 <? Z.of_nat (length processedFiles)
  then summaries_instruction processedFiles
  else generic_instruction.

(** The parts of one file, [index] counted from 0. *)
Definition file_parts (index : nat) (file : LocalFile) : list Part :=
  let header :=
    (nl ++ "--- FILE " ++ pretty (Z.of_nat index + 1) ++ ": " ++ file_name file
        ++ " ---" ++ nl)%string in
  if String.eqb (file_type file) "application/pdf" then
    [TextPart header; InlineData "application/pdf" (file_content file)]
  else
    let content :=
      if 200000 <? Z.of_nat (String.length (file_content file))
      then (substring 0 200000 (file_content file)
            ++ nl ++ "...(Truncated for Chat)...")%string
      else file_content file in
    [TextPart (header ++ content)].

Fixpoint files_parts (index : nat) (files : list LocalFile) : list Part :=
  match files with
  | [] => []
  | file :: rest => file_parts index file ++ files_parts (S index) rest
  end.

Definition getFileParts (files : list LocalFile) : list Part :=
  match files with
  | [] => []
  | _ =>
      TextPart ("Here are the uploaded documents you need to analyze:" ++ nl)
      :: files_parts 0 files
  end.

Inductive Role : Type := user | model.

Record Content := { role : Role; parts : list Part }.

(** A chat object made by [ai.chats.create].  [chat_handle] is its identity
    as a reference: the number of chat objects created before it. *)
Record Chat := {
  chat_handle : nat;
  chat_history : list Content;
  chat_systemInstruction : string
}.

(** The two module-level variables, and the count of chat objects created
    so far. *)
Record Session := {
  chatSession : option Chat;
  currentFileContextHash : string;
  chats_created : nat
}.

Definition initial_session : Session :=
  {| chatSession := None; currentFileContextHash := ""; chats_created := 0 |}.

(** The history a new session is seeded with. *)
Definition seed_history (files : list LocalFile) : list Content :=
  let fileParts := getFileParts files in
  if 0 <? Z.of_nat (length fileParts) then
    [ {| role := user; parts := fileParts |};
      {| role := model;
         parts := [TextPart "I have received the documents and their context."] |} ]
  else [].

(** [if (!chatSession || fileHash !== currentFileContextHash) { ... }]:
    the session after the reuse-or-create step of [streamGeminiResponse]. *)
Definition ensure_session (files : list LocalFile) (s : Session) : Session :=
  let fileHash := generateFileHash files in
  if bool_decide (chatSession s = None)
     || negb (String.eqb fileHash (currentFileContextHash s))
  then
    {| chatSession :=
         Some {| chat_handle := chats_created s;
                 chat_history := seed_history files;
                 chat_systemInstruction := getSystemInstruction files |};
       currentFileContextHash := fileHash;
       chats_created := S (chats_created s) |}
  else s.

(** What the stream of one [sendMessageStream] call does: the text of the
    chunks that arrive ([None]: a chunk without text), then either normal
    completion or an error with its message. *)
Record Stream := {
  stream_chunks : list (option string);
  stream_error : option string
}.

Inductive Callback : Type :=
| onChunk (text : string)
| onComplete
| onError (error : string).

Definition chunk_callbacks (chunks : list (option string)) : list Callback :=
  omap (fun c => match c with
                 | Some text => if String.eqb text "" then None
                                else Some (onChunk text)
                 | None => None
                 end) chunks.

(** [streamGeminiResponse]: the module-level variables it leaves and the
    callbacks it makes, in order.  [userMessage] goes into the session and
    is of no further use to the code of the repository. *)
Definition streamGeminiResponse (userMessage : string)
    (files : list LocalFile) (stream : Stream) (s : Session)
    : Session * list Callback :=
  (ensure_session files s,
   chunk_callbacks (stream_chunks stream) ++
   match stream_error stream with
   | None => [onComplete]
   | Some message =>
       [onError (if String.eqb message ""
                 then "An error occurred while contacting Gemini."
                 else message)]
   end).

Definition resetChatSession (s : Session) : Session :=
  {| chatSession := None; currentFileContextHash := "";
     chats_created := chats_created s |}.

(** What the fingerprint is meant to capture of a file. *)
Definition file_key (f : LocalFile) : string * Z := (file_name f, file_size f).

(** [c] occurs in [s]. *)
Fixpoint occurs (c : ascii) (s : string) : bool :=
  match s with
  | EmptyString => false
  | String a rest => Ascii.eqb a c || occurs c rest
  end.

(** File names without the separator of the fingerprint, sizes that are
    byte counts. *)
Definition plain_files (files : list LocalFile) : Prop :=
  Forall (fun f => occurs "|" (file_name f) = false /\ 0 <= file_size f) files.

Definition named_file (name0 : string) (size0 : Z) : LocalFile :=
  {| file_id := name0; file_name := name0; file_content := "";
     file_type := "text/plain"; file_size := size0; file_timestamp := 0;
     file_summary := None; file_processedData := None;
     file_isProcessing := None |}.

Definition processed_file (name0 summary0 : string) : LocalFile :=
  {| file_id := name0; file_name := name0; file_content := "";
     file_type := "text/plain"; file_size := 0; file_timestamp := 0;
     file_summary := Some summary0;
     file_processedData :=
       Some (ProcessedData_json
               {| summary := summary0; topics := []; risks := [];
                  keyPoints := []; entities := [] |});
     file_isProcessing := Some false |}.

(** Two file sets with different names and the same fingerprint. *)
Definition files_before : list LocalFile :=
  [named_file "a.txt" 1; named_file "b.txt-2|c.txt" 3].

Definition files_after : list LocalFile :=
  [named_file "a.txt-1|b.txt" 2; named_file "c.txt" 3].

Definition stream_done : Stream :=
  {| stream_chunks := [Some "ok"]; stream_error := None |}.

(** The chat object created in state [s] for [files]. *)
Definition new_chat (files : list LocalFile) (s : Session) : Chat :=
  {| chat_handle := chats_created s;
     chat_history := seed_history files;
     chat_systemInstruction := getSystemInstruction files |}.

(** ** Knowledge graph store *)

Record WikiEntry := {
  term : string;
  definition : string;
  relatedContext : string
}.

(** What the [entries] of a value are when a handler reads them: absent,
    an array of entries, or the function [Object.entries], which is what
    the inherited [constructor] has under that name. *)
Inductive Entries : Type :=
| no_entries
| entry_list (es : list WikiEntry)
| Object_entries.

(** A node as it is at run time: each property may be absent;
    [handleWikiRemoveFile] on a node that does not exist yet leaves one
    without [entries]. *)
Record WikiNodeData := {
  entries : Entries;
  content : option string;
  node_files : option (list LocalFile)
}.

(** What [prev[key]] can give: a node, or the value that every plain
    object inherits under [name] from [Object.prototype] (one of its
    methods, [Object] itself for [constructor], the prototype for
    [__proto__]).  [[key]: prev[key]] makes such a value a property of the
    store. *)
Inductive WikiValue : Type :=
| Node (node : WikiNodeData)
| Inherited (name : string).

(** The store: the own properties of a plain object, by name. *)
Abbreviation WikiCache := (gmap string WikiValue).

(** The property names of [Object.prototype]. *)
Definition Object_prototype : list string :=
  ["constructor"; "__defineGetter__"; "__defineSetter__"; "hasOwnProperty";
   "__lookupGetter__"; "__lookupSetter__"; "isPrototypeOf";
   "propertyIsEnumerable"; "toString"; "valueOf"; "__proto__";
   "toLocaleString"].

(** [prev[key]]: the property of the store, else the inherited one, else
    [undefined].  Every value it finds is truthy. *)
Definition Get (prev : WikiCache) (key : string) : option WikiValue :=
  match prev !! key with
  | Some v => Some v
  | None =>
      if bool_decide (key ∈ Object_prototype) then Some (Inherited key)
      else None
  end.

(** [v.entries], [v.content] and [v.files].  Of the inherited values only
    [Object] has one of them: [Object.entries]. *)
Definition entries_of (v : WikiValue) : Entries :=
  match v with
  | Node node => entries node
  | Inherited name =>
      if String.eqb name "constructor" then Object_entries else no_entries
  end.

Definition content_of (v : WikiValue) : option string :=
  match v with
  | Node node => content node
  | Inherited _ => None
  end.

Definition files_of (v : WikiValue) : option (list LocalFile) :=
  match v with
  | Node node => node_files node
  | Inherited _ => None
  end.

(** [{ ...v }] for a value or [undefined]: the enumerable properties of
    its own, of which an inherited value has none. *)
Definition spread (v : option WikiValue) : WikiNodeData :=
  match v with
  | Some (Node node) => node
  | _ => {| entries := no_entries; content := None; node_files := None |}
  end.

(** [e || []] *)
Definition or_empty (e : Entries) : Entries :=
  match e with
  | no_entries => entry_list []
  | _ => e
  end.

(** [{ entries: [], content: '', files: [] }] *)
Definition blank_node : WikiNodeData :=
  {| entries := entry_list []; content := Some ""; node_files := Some [] |}.

(** [{ ...node, entries: es }] *)
Definition with_entries (node : WikiNodeData) (es : list WikiEntry)
    : WikiNodeData :=
  {| entries := entry_list es; content := content node;
     node_files := node_files node |}.

(** The updater that [handleWikiAddManualEntry] hands to [setWikiCache].
    Spreading [node.entries || []] throws when it is a function. *)
Definition handleWikiAddManualEntry (term0 definition0 parentNode : string)
    (prev : WikiCache) : Result WikiCache :=
  let targetParent :=
    if bool_decide (is_Some (Get prev parentNode)) then parentNode
    else "ROOT" in
  let node := default (Node blank_node) (Get prev targetParent) in
  let newEntry :=
    {| term := term0; definition := definition0;
       relatedContext := "Manually added by user" |} in
  let newTermNode :=
    default (Node {| entries := entry_list []; content := Some definition0;
                     node_files := Some [] |}) (Get prev term0) in
  match or_empty (entries_of node) with
  | entry_list es =>
      Ok (<[term0 := newTermNode]>
            (<[targetParent := Node (with_entries (spread (Some node))
                                       (es ++ [newEntry]))]>
               prev))
  | _ => Throw "TypeError: node.entries is not iterable"
  end.

(** [wikiPath[wikiPath.length - 1]]; the path is never empty, and the
    property name of an absent element would be ["undefined"]. *)
Definition current_term (wikiPath : list string) : string :=
  List.last wikiPath "undefined".

(** [handleWikiMoveNode], as a function of the path and the store.  Reading
    [entries] of [undefined], or calling [filter] or [some] on [entries]
    that are no array, throws a [TypeError] inside the updater. *)
Definition handleWikiMoveNode (term0 definition0 newParent : string)
    (wikiPath : list string) (prev : WikiCache) : Result WikiCache :=
  let currentParent := current_term wikiPath in
  if String.eqb currentParent newParent then Ok prev
  else
    match Get prev currentParent with
    | None => Throw "TypeError: Cannot read properties of undefined"
    | Some oldParentNode =>
        match entries_of oldParentNode with
        | entry_list oldEntries =>
            let updatedOldEntries :=
              List.filter (fun e => negb (String.eqb (term e) term0)) oldEntries in
            let newParentNode :=
              default (Node blank_node) (Get prev newParent) in
            match entries_of newParentNode with
            | entry_list newEntries =>
                if existsb (fun e => String.eqb (term e) term0) newEntries
                then Ok prev
                else
                  let movedEntry :=
                    {| term := term0; definition := definition0;
                       relatedContext := "Moved from " ++ currentParent |} in
                  Ok (<[newParent :=
                          Node (with_entries (spread (Some newParentNode))
                                  (newEntries ++ [movedEntry]))]>
                        (<[currentParent :=
                             Node (with_entries (spread (Some oldParentNode))
                                     updatedOldEntries)]> prev))
            | _ => Throw "TypeError: newParentNode.entries.some is not a function"
            end
        | _ => Throw "TypeError: oldParentNode.entries.filter is not a function"
        end
    end.

(** [parent] lists [t]: some entry of the node [parent] names [t]. *)
Definition lists_term (cache : WikiCache) (parent t : string) : Prop :=
  exists node es e,
    cache !! parent = Some (Node node) /\ entries node = entry_list es /\
    e ∈ es /\ term e = t.

(** No term is listed under two different parents. *)
Definition single_parent (cache : WikiCache) : Prop :=
  forall t p q, lists_term cache p t -> lists_term cache q t -> p = q.

(** Adding [A] under [ROOT] and then [X] under [ROOT], starting from the
    empty store. *)
Definition store_A_X : Result WikiCache :=
  store_A ← handleWikiAddManualEntry "A" "def A" "ROOT" ∅;
  handleWikiAddManualEntry "X" "def X" "ROOT" store_A.

(** ** Snapshot import *)

Inductive LogLevel : Type := info | success | warning | error.

(** A log entry without its random id and its time stamp. *)
Record LogEntry := {
  level : LogLevel;
  message : string;
  details : option string
}.

(** The state a snapshot touches.  Import stores the parsed values as they
    are, so documents, graph and risk register are values of [JSON] here;
    an empty risk register is [null]. *)
Record AppState := {
  files : JSON;
  wikiCache : JSON;
  riskData : JSON;
  wikiPath : list string;
  logs : list LogEntry
}.

Definition addLog (l : LogLevel) (m : string) (d : option string)
    (st : AppState) : AppState :=
  {| files := files st; wikiCache := wikiCache st; riskData := riskData st;
     wikiPath := wikiPath st;
     logs := logs st ++ [ {| level := l; message := m; details := d |} ] |}.

Definition typeof (v : option JSON) : string :=
  match v with
  | None => "undefined"
  | Some (JBool _) => "boolean"
  | Some (JNum _) => "number"
  | Some (JStr _) => "string"
  | Some JNull | Some (JArr _) | Some (JObj _) => "object"
  end.

Definition Array_isArray (v : option JSON) : bool :=
  match v with
  | Some (JArr _) => true
  | _ => false
  end.

Definition invalid_format : string := "Invalid context file format.".

Section Snapshot.

Variable JSON_parse : string -> Result JSON.

(** The [onload] handler of [handleImportContext], applied to the text
    of the file.  The test is
    [parsed && Array.isArray(parsed.files) && typeof parsed.wiki === 'object'];
    a value that passes it has an array [parsed.files] and a [parsed.wiki]
    that is not [undefined]. *)
Definition handleImportContext (content0 : string) (st : AppState)
    : AppState :=
  try_catch
    (parsed ← JSON_parse content0;
     if truthy (Some parsed) then
       parsed_files ← prop parsed "files";
       parsed_wiki ← prop parsed "wiki";
       match parsed_files, parsed_wiki with
       | Some (JArr items), Some wiki =>
           if String.eqb (typeof (Some wiki)) "object" then
             parsed_riskData ← prop parsed "riskData";
             Ok (addLog success
                   ("Context loaded: " ++ pretty (Z.of_nat (length items))
                                       ++ " files restored.") None
                   {| files := JArr items;
                      wikiCache := wiki;
                      riskData :=
                        match parsed_riskData with
                        | Some r => if truthy (Some r) then r else riskData st
                        | None => riskData st
                        end;
                      wikiPath := ["ROOT"];
                      logs := logs st |})
           else Throw invalid_format
       | _, _ => Throw invalid_format
       end
     else Throw invalid_format)
    (fun m => addLog error "Failed to load context file" (Some m) st).

End Snapshot.

(** [v.key] of a value that is not [null]. *)
Definition member (v : JSON) (key : string) : option JSON :=
  try_catch (prop v key) (fun _ => None).

(** The acceptance test of import, on the parsed document. *)
Definition snapshot_accepted (parsed : JSON) : bool :=
  truthy (Some parsed) && Array_isArray (member parsed "files")
  && String.eqb (typeof (member parsed "wiki")) "object".

(** [typeof v === 'object' && v !== null]: an object or an array. *)
Definition is_object (v : option JSON) : bool :=
  match v with
  | Some (JArr _) | Some (JObj _) => true
  | _ => false
  end.

(** The risk register after a successful import into a state whose
    register was [old]. *)
Definition imported_riskData (parsed old : JSON) : JSON :=
  match member parsed "riskData" with
  | Some r => if truthy (Some r) then r else old
  | None => old
  end.

Definition untouched (st st' : AppState) : Prop :=
  files st' = files st /\ wikiCache st' = wikiCache st
  /\ riskData st' = riskData st /\ wikiPath st' = wikiPath st.

(** A state with one document, one graph node and one registered risk,
    the user three levels down in the graph. *)
Definition busy_state : AppState :=
  {| files := JArr [JObj [("name", JStr "old.txt")]];
     wikiCache := JObj [("ROOT", JObj [("entries", JArr [])])];
     riskData := JObj [("risks", JArr [JObj [("riskDescription", JStr "old risk")]]);
                       ("gapAnalysis", JArr [])];
     wikiPath := ["ROOT"; "A"; "B"];
     logs := [] |}.

(** The snapshot that export writes when the risk register is empty. *)
Definition snapshot_without_risks : JSON :=
  JObj [("version", JNum 2); ("timestamp", JStr "2025-01-01T00:00:00.000Z");
        ("files", JArr []); ("wiki", JObj []); ("riskData", JNull)].

Definition snapshot_null_wiki : JSON :=
  JObj [("files", JArr []); ("wiki", JNull)].

Definition snapshot_no_files : JSON := JObj [("wiki", JObj [])].

(* ===================================================================== *)
(** * Part I, continued. The rest of the two files                        *)
(* ===================================================================== *)

(** ** Ingestion: the failures of one extraction call *)

(** The call [call] with [parts] fails softly: the model call throws, or
    answers without text, or answers a text that [JSON.parse] rejects. *)
Definition soft_failure (generateContent : nat -> list Part -> Result Response)
    (JSON_parse : string -> Result JSON) (call : nat) (parts : list Part)
    : Prop :=
  match generateContent call parts with
  | Throw _ => True
  | Ok response =>
      match response_text response with
      | None => True
      | Some text => text = "" \/ exists m, JSON_parse text = Throw m
      end
  end.

(** A document of 60001 characters, and one sent as a PDF. *)
Definition long_file : LocalFile :=
  text_file "long.txt" (string_of_list_ascii long_text).

(** ** Knowledge graph store: the other handlers *)

(** [prev[term]?.entries || []], [prev[term]?.content || ''] and
    [prev[term]?.files || []]. *)
Definition entries_or_empty (prev : WikiCache) (t : string) : Entries :=
  or_empty (default no_entries (entries_of <$> Get prev t)).

Definition content_or_empty (prev : WikiCache) (t : string) : string :=
  default "" (Get prev t ≫= content_of).

Definition files_or_empty (prev : WikiCache) (t : string) : list LocalFile :=
  default [] (Get prev t ≫= files_of).

(** The updater of [handleWikiGenerate], run when the generation started
    at the node [currentTerm] has delivered [data]. *)
Definition handleWikiGenerate (currentTerm : string) (data : list WikiEntry)
    (prev : WikiCache) : WikiCache :=
  <[currentTerm :=
      Node {| entries := entry_list data;
              content := Some (content_or_empty prev currentTerm);
              node_files := Some (files_or_empty prev currentTerm) |}]>
    prev.

(** The updater of [handleWikiUpdateContent]; the three properties written
    after [...prev[currentTerm]] replace everything it copied. *)
Definition handleWikiUpdateContent (currentTerm content0 : string)
    (prev : WikiCache) : WikiCache :=
  <[currentTerm :=
      Node {| entries := entries_or_empty prev currentTerm;
              content := Some content0;
              node_files := Some (files_or_empty prev currentTerm) |}]>
    prev.

(** The updater of [handleWikiAddFile]. *)
Definition handleWikiAddFile (currentTerm : string) (file : LocalFile)
    (prev : WikiCache) : WikiCache :=
  <[currentTerm :=
      Node {| entries := entries_or_empty prev currentTerm;
              content := Some (content_or_empty prev currentTerm);
              node_files :=
                Some (files_or_empty prev currentTerm ++ [file]) |}]>
    prev.

(** The updater of [handleWikiRemoveFile]: [{ ...prev[currentTerm], files }]
    keeps the [entries] and the [content] that the spread copied, absent
    when there was nothing to copy. *)
Definition handleWikiRemoveFile (currentTerm fileId : string)
    (prev : WikiCache) : WikiCache :=
  <[currentTerm :=
      Node {| entries := entries (spread (Get prev currentTerm));
              content := content (spread (Get prev currentTerm));
              node_files :=
                Some (List.filter
                        (fun f => negb (String.eqb (file_id f) fileId))
                        (files_or_empty prev currentTerm)) |}]>
    prev.

(** The graph as the application holds it: the store and the path. *)
Record Wiki := {
  wiki_cache : WikiCache;
  wiki_path : list string
}.

(** [handleWikiDrillDown]: the node is created when [prev[term]] finds
    nothing, neither in the store nor on its prototype. *)
Definition handleWikiDrillDown (term0 : string) (w : Wiki) : Wiki :=
  {| wiki_cache :=
       if bool_decide (is_Some (Get (wiki_cache w) term0)) then wiki_cache w
       else <[term0 := Node blank_node]> (wiki_cache w);
     wiki_path := wiki_path w ++ [term0] |}.

(** [handleWikiBack]: [prev.slice(0, -1)] when the path has more than one
    element. *)
Definition handleWikiBack (w : Wiki) : Wiki :=
  {| wiki_cache := wiki_cache w;
     wiki_path := if 1 <? Z.of_nat (length (wiki_path w))
                  then removelast (wiki_path w) else wiki_path w |}.

(** [handleWikiHome] *)
Definition handleWikiHome (w : Wiki) : Wiki :=
  {| wiki_cache := wiki_cache w; wiki_path := ["ROOT"] |}.

(** One use of a handler of the graph.  [Generated], [ContentUpdated] and
    [FileAdded] run when a model call or a file read has finished, and
    carry the node that was current when it started; the others act at
    the node that is current now.  The log is left out. *)
Inductive WikiOp : Type :=
| Generated (currentTerm : string) (data : list WikiEntry)
| ContentUpdated (currentTerm content0 : string)
| FileAdded (currentTerm : string) (file : LocalFile)
| FileRemoved (fileId : string)
| ManualEntryAdded (term0 definition0 parentNode : string)
| NodeMoved (term0 definition0 newParent : string)
| DrilledDown (term0 : string)
| WentBack
| WentHome.

Definition with_cache (w : Wiki) (cache : WikiCache) : Wiki :=
  {| wiki_cache := cache; wiki_path := wiki_path w |}.

Definition wiki_step (op : WikiOp) (w : Wiki) : Result Wiki :=
  let currentTerm := current_term (wiki_path w) in
  match op with
  | Generated t data => Ok (with_cache w (handleWikiGenerate t data (wiki_cache w)))
  | ContentUpdated t c =>
      Ok (with_cache w (handleWikiUpdateContent t c (wiki_cache w)))
  | FileAdded t f => Ok (with_cache w (handleWikiAddFile t f (wiki_cache w)))
  | FileRemoved i =>
      Ok (with_cache w (handleWikiRemoveFile currentTerm i (wiki_cache w)))
  | ManualEntryAdded t d p =>
      cache ← handleWikiAddManualEntry t d p (wiki_cache w);
      Ok (with_cache w cache)
  | NodeMoved t d p =>
      cache ← handleWikiMoveNode t d p (wiki_path w) (wiki_cache w);
      Ok (with_cache w cache)
  | DrilledDown t => Ok (handleWikiDrillDown t w)
  | WentBack => Ok (handleWikiBack w)
  | WentHome => Ok (handleWikiHome w)
  end.

(** The handlers used one after the other, stopping at the first that
    throws. *)
Fixpoint wiki_run (ops : list WikiOp) (w : Wiki) : Result Wiki :=
  match ops with
  | [] => Ok w
  | op :: rest => w' ← wiki_step op w; wiki_run rest w'
  end.

Definition empty_store : WikiCache := ∅.

Definition initial_wiki : Wiki :=
  {| wiki_cache := empty_store; wiki_path := ["ROOT"] |}.

(** The array that [prev[key].entries] is, when it is one. *)
Definition entry_array (prev : WikiCache) (key : string)
    : option (list WikiEntry) :=
  match entries_of <$> Get prev key with
  | Some (entry_list es) => Some es
  | _ => None
  end.

(** The name is found on the prototype only: the store has no property of
    its own under it. *)
Definition only_inherited (prev : WikiCache) (key : string) : Prop :=
  prev !! key = None /\ key ∈ Object_prototype.

(** The name under which a handler stores what it read under that name. *)
Definition rewritten_name (op : WikiOp) : option string :=
  match op with
  | ContentUpdated t _ | FileAdded t _ | ManualEntryAdded t _ _ => Some t
  | _ => None
  end.

(** Every property of the store is a node with an array of entries. *)
Definition all_have_entries (cache : WikiCache) : Prop :=
  forall k v, cache !! k = Some v ->
    exists node es, v = Node node /\ entries node = entry_list es.

Definition entry_X : WikiEntry :=
  {| term := "X"; definition := "def X";
     relatedContext := "Manually added by user" |}.

Definition entry_A : WikiEntry :=
  {| term := "A"; definition := "def A";
     relatedContext := "Manually added by user" |}.

(** The store after [A] and then [X] were added under [ROOT]. *)
Definition nodes_A_X : WikiCache :=
  <["X" := Node {| entries := entry_list []; content := Some "def X";
                   node_files := Some [] |}]>
    (<["ROOT" := Node {| entries := entry_list [entry_A; entry_X];
                         content := Some ""; node_files := Some [] |}]>
       (<["A" := Node {| entries := entry_list []; content := Some "def A";
                         node_files := Some [] |}]> ∅)).

(** ** Risk register *)

Record RiskItem := {
  risk_id : string;
  risk_source : string;
  riskDescription : string;
  risk_category : string;
  probability : Z;
  impact : Z;
  mitigationStrategy : string
}.

Record RiskAnalysisData := {
  register_risks : list RiskItem;
  gapAnalysis : list string
}.

(** [prev || { risks: [], gapAnalysis: [] }] *)
Definition existing_register (prev : option RiskAnalysisData)
    : RiskAnalysisData :=
  default {| register_risks := []; gapAnalysis := [] |} prev.

(** The item both library handlers build; [uuid] is the identifier that
    the call of [uuid()] gave. *)
Definition library_risk (uuid riskText category0 sourceFile : string)
    : RiskItem :=
  {| risk_id := uuid; risk_source := sourceFile; riskDescription := riskText;
     risk_category := if String.eqb category0 "" then "General" else category0;
     probability := 3; impact := 3;
     mitigationStrategy := "To be determined" |}.

(** The updater of [handleAddRiskFromLibrary]. *)
Definition handleAddRiskFromLibrary (uuid riskText category0 sourceFile : string)
    (prev : option RiskAnalysisData) : option RiskAnalysisData :=
  let existing := existing_register prev in
  Some {| register_risks :=
            register_risks existing
            ++ [library_risk uuid riskText category0 sourceFile];
          gapAnalysis := gapAnalysis existing |}.

(** One element of the argument of [handleAddRisksBulk], with the
    identifier that [uuid()] gives for it. *)
Record BulkRisk := {
  bulk_uuid : string;
  bulk_risk : string;
  bulk_category : string;
  bulk_source : string
}.

(** The updater of [handleAddRisksBulk]. *)
Definition handleAddRisksBulk (risks0 : list BulkRisk)
    (prev : option RiskAnalysisData) : option RiskAnalysisData :=
  let existing := existing_register prev in
  let newRisks :=
    map (fun r => library_risk (bulk_uuid r) (bulk_risk r) (bulk_category r)
                               (bulk_source r)) risks0 in
  Some {| register_risks := register_risks existing ++ newRisks;
          gapAnalysis := gapAnalysis existing |}.

(** The updater of [handleUpdateRisk]. *)
Definition handleUpdateRisk (updatedRisk : RiskItem)
    (prev : option RiskAnalysisData) : option RiskAnalysisData :=
  match prev with
  | None => None
  | Some data =>
      Some {| register_risks :=
                map (fun r => if String.eqb (risk_id r) (risk_id updatedRisk)
                              then updatedRisk else r)
                    (register_risks data);
              gapAnalysis := gapAnalysis data |}
  end.

Definition sample_risk (uuid description : string) (p : Z) : RiskItem :=
  {| risk_id := uuid; risk_source := "Manual"; riskDescription := description;
     risk_category := "Legal"; probability := p; impact := 3;
     mitigationStrategy := "To be determined" |}.

(** ** Snapshot export and graph import *)

(** The object that [handleExportContext] serialises; [timestamp] is
    [new Date().toISOString()]. *)
Definition export_document (timestamp : string) (st : AppState) : JSON :=
  JObj [("version", JNum 2); ("timestamp", JStr timestamp);
        ("files", files st); ("wiki", wikiCache st);
        ("riskData", riskData st)].

Section GraphImport.

Variable JSON_parse : string -> Result JSON.

(** The [onload] handler of [handleImportWiki], applied to the text of the
    file. *)
Definition handleImportWiki (content0 : string) (st : AppState) : AppState :=
  try_catch
    (parsed ← JSON_parse content0;
     if String.eqb (typeof (Some parsed)) "object"
        && negb (match parsed with JNull => true | _ => false end)
     then
       Ok (addLog success "Wiki graph imported successfully." None
             {| files := files st; wikiCache := parsed;
                riskData := riskData st; wikiPath := ["ROOT"];
                logs := logs st |})
     else Throw "Invalid JSON structure")
    (fun m => addLog error "Failed to import wiki JSON" (Some m) st).

End GraphImport.

(** ** Parent suggestion *)

Definition dquote : string := String (ascii_of_nat 34) "".

Definition suggestion (parent reasoning : string) : JSON :=
  JObj [("suggestedParent", JStr parent); ("reasoning", JStr reasoning)].

Definition suggestion_prompt (newTerm newDefinition : string)
    (existingNodes : list string) : string :=
  "We are organizing a knowledge graph." ++ nl ++
  "        New Node: " ++ dquote ++ newTerm ++ dquote ++ " - " ++ newDefinition ++ nl ++
  "        " ++ nl ++
  "        Existing Nodes:" ++ nl ++
  "        " ++ join ", " existingNodes ++ nl ++
  "        " ++ nl ++
  "        Task: Select the Best Existing Node to be the PARENT of the New Node." ++ nl ++
  "        If no specific node fits well, select 'ROOT'." ++ nl ++
  "        Return strictly JSON.".

Section Suggestion.

Variable generateContent : nat -> list Part -> Result Response.
Variable JSON_parse : string -> Result JSON.

Definition suggestWikiParent (newTerm newDefinition : string)
    (existingNodes : list string) : JSON :=
  try_catch
    (if Z.of_nat (length existingNodes) <=? 1
     then Ok (suggestion "ROOT" "No other nodes available.")
     else
       response ← generateContent 0
                    [TextPart (suggestion_prompt newTerm newDefinition
                                                 existingNodes)];
       match response_text response with
       | None | Some "" => Ok (suggestion "ROOT" "Model failed.")
       | Some text => JSON_parse text
       end)
    (fun _ => suggestion "ROOT" "Error during suggestion.").

(** What [handleWikiSuggestParent] returns: [result.suggestedParent], which
    may be [undefined], or [ROOT] when reading it throws.  [existingNodes]
    is [Object.keys(wikiCache)]. *)
Definition handleWikiSuggestParent (term0 definition0 : string)
    (existingNodes : list string) : option JSON :=
  try_catch
    (prop (suggestWikiParent term0 definition0 existingNodes) "suggestedParent")
    (fun _ => Some (JStr "ROOT")).

(** [handleAutoSuggestParent] of the graph view: the parent selected in the
    dialog afterwards.  [allNodes] is [Object.keys(wikiCache)];
    [allNodes.includes(parent)] holds of a string among them only. *)
Definition handleAutoSuggestParent (newTerm newDefinition : string)
    (allNodes : list string) (targetParent : string) : string :=
  if String.eqb newTerm "" then targetParent
  else
    let parent := handleWikiSuggestParent newTerm newDefinition allNodes in
    match parent with
    | Some (JStr p) =>
        if truthy parent
           && (bool_decide (p ∈ allNodes) || String.eqb p "ROOT")
        then p else targetParent
    | _ => targetParent
    end.

End Suggestion.

(** ** Text generation and the notes of a node *)

Section TextGeneration.

Variable generateContent : nat -> list Part -> Result Response.

Definition generateTextResponse (prompt : string) (files0 : list LocalFile)
    : Result string :=
  match
    (response ← generateContent 0 (getFileParts files0 ++ [TextPart prompt]);
     match response_text response with
     | None | Some "" => Throw "No text returned from model."
     | Some text => Ok text
     end)
  with
  | Ok text => Ok text
  | Throw m => Throw (if String.eqb m "" then "Failed to generate text." else m)
  end.

(** The graph view with what [handleWikiAutoPopulate] also touches. *)
Record WikiView := {
  view_wiki : Wiki;
  view_isLoading : bool;
  view_logs : list LogEntry
}.

Definition view_log (l : LogLevel) (m : string) (d : option string)
    (v : WikiView) : WikiView :=
  {| view_wiki := view_wiki v; view_isLoading := view_isLoading v;
     view_logs := view_logs v ++ [ {| level := l; message := m; details := d |} ] |}.

(** [handleWikiAutoPopulate], the path being the same at its end as at its
    start. *)
Definition handleWikiAutoPopulate (v : WikiView) : WikiView :=
  let currentTerm := current_term (wiki_path (view_wiki v)) in
  let nodeFiles := files_or_empty (wiki_cache (view_wiki v)) currentTerm in
  if Z.of_nat (length nodeFiles) =? 0 then
    view_log warning "No files attached to this node to populate content." None v
  else
    let prompt :=
      ("Analyze the attached documents. Write a comprehensive expert summary for the concept: "
       ++ dquote ++ currentTerm ++ dquote
       ++ ". Include key definitions and context.")%string in
    let started :=
      view_log info
        ("Populating expert content for '" ++ currentTerm ++ "' using "
         ++ pretty (Z.of_nat (length nodeFiles)) ++ " file(s)...") None
        {| view_wiki := view_wiki v; view_isLoading := true;
           view_logs := view_logs v |} in
    let finished :=
      match generateTextResponse prompt nodeFiles with
      | Ok text =>
          view_log success ("Populated content for '" ++ currentTerm ++ "'.") None
            {| view_wiki :=
                 with_cache (view_wiki started)
                   (handleWikiUpdateContent currentTerm text
                      (wiki_cache (view_wiki started)));
               view_isLoading := view_isLoading started;
               view_logs := view_logs started |}
      | Throw m =>
          view_log error "Failed to populate node content." (Some m) started
      end in
    {| view_wiki := view_wiki finished; view_isLoading := false;
       view_logs := view_logs finished |}.

End TextGeneration.

(** ** Chat messages *)

Inductive Sender : Type := USER | BOT.

Record ChatMessage := {
  msg_id : string;
  msg_sender : Sender;
  msg_text : string;
  msg_isError : option bool;
  msg_timestamp : Z
}.

Record ChatView := {
  messages : list ChatMessage;
  chat_isLoading : bool;
  chat_logs : list LogEntry;
  chat_session : Session
}.

(** What one callback handed to [streamGeminiResponse] does. *)
Definition run_callback (botMsgId : string) (cb : Callback) (v : ChatView)
    : ChatView :=
  match cb with
  | onChunk chunk =>
      {| messages :=
           map (fun msg => if String.eqb (msg_id msg) botMsgId
                           then {| msg_id := msg_id msg;
                                   msg_sender := msg_sender msg;
                                   msg_text := msg_text msg ++ chunk;
                                   msg_isError := msg_isError msg;
                                   msg_timestamp := msg_timestamp msg |}
                           else msg) (messages v);
         chat_isLoading := chat_isLoading v; chat_logs := chat_logs v;
         chat_session := chat_session v |}
  | onComplete =>
      {| messages := messages v; chat_isLoading := false;
         chat_logs := chat_logs v ++
                      [ {| level := success;
                           message := "Gemini response stream complete.";
                           details := None |} ];
         chat_session := chat_session v |}
  | onError err =>
      {| messages :=
           map (fun msg => if String.eqb (msg_id msg) botMsgId
                           then {| msg_id := msg_id msg;
                                   msg_sender := msg_sender msg;
                                   msg_text := "Error: " ++ err;
                                   msg_isError := Some true;
                                   msg_timestamp := msg_timestamp msg |}
                           else msg) (messages v);
         chat_isLoading := false;
         chat_logs := chat_logs v ++
                      [ {| level := error; message := "Gemini stream error";
                           details := Some err |} ];
         chat_session := chat_session v |}
  end.

(** [handleSendMessage].  [userMsgId] and [botMsgId] are what the two calls
    of [uuid()] give, [userNow] and [botNow] what the two calls of
    [Date.now()] give. *)
Definition handleSendMessage (userMsgId botMsgId : string) (userNow botNow : Z)
    (text : string) (files0 : list LocalFile) (stream : Stream)
    (v : ChatView) : ChatView :=
  let userMsg := {| msg_id := userMsgId; msg_sender := USER; msg_text := text;
                    msg_isError := None; msg_timestamp := userNow |} in
  let botMsg := {| msg_id := botMsgId; msg_sender := BOT; msg_text := "";
                   msg_isError := None; msg_timestamp := botNow |} in
  let sent := streamGeminiResponse text files0 stream (chat_session v) in
  fold_left (fun acc cb => run_callback botMsgId cb acc) (snd sent)
    {| messages := (messages v ++ [userMsg]) ++ [botMsg];
       chat_isLoading := true;
       chat_logs := chat_logs v ++
                    [ {| level := info; message := "Sending message to Gemini...";
                         details := None |} ];
       chat_session := fst sent |}.

(** The text of the chunks that have one, in order. *)
Fixpoint streamed_text (chunks : list (option string)) : string :=
  match chunks with
  | [] => ""
  | Some text :: rest => text ++ streamed_text rest
  | None :: rest => streamed_text rest
  end.

Definition empty_chat : ChatView :=
  {| messages := []; chat_isLoading := false; chat_logs := [];
     chat_session := initial_session |}.

(* ===================================================================== *)
(** * Part II. Theorems                                                   *)
(* ===================================================================== *)

(** ** The chunker *)

(** Case analysis on every integer comparison of the goal. *)
Ltac case_ltb :=
  repeat match goal with
         | |- context [?a <? ?b] => destruct (Z.ltb_spec a b)
         end.

Lemma scan_back_range text c n :
  -1 <= scan_back text c n < Z.of_nat n.
Proof.
  induction n as [|k IH]; simpl; [lia|].
  case_bool_decide; lia.
Qed.

Lemma lastIndexOf_le text c position :
  0 <= position -> -1 <= lastIndexOf text c position <= position.
Proof.
  intros Hp. unfold lastIndexOf.
  set (start := Z.min (Z.max position 0) (len text - 1)).
  pose proof (scan_back_range text c (Z.to_nat (start + 1))) as H.
  assert (start <= position) by lia.
  assert (-1 <= start) by (unfold start, len; lia).
  lia.
Qed.

Lemma lastIndexOf_lt_len text c position :
  lastIndexOf text c position < len text.
Proof.
  unfold lastIndexOf.
  set (start := Z.min (Z.max position 0) (len text - 1)).
  pose proof (scan_back_range text c (Z.to_nat (start + 1))) as H.
  assert (start <= len text - 1) by lia.
  assert (-1 <= start) by (unfold start, len; lia).
  lia.
Qed.

(** Every iteration moves the cut position strictly forward and keeps it
    inside the text. *)
Lemma cut_end_advances text chunkSize i :
  0 < chunkSize -> 0 <= i < len text ->
  i < cut_end text chunkSize i <= len text.
Proof.
  intros Hc Hi. unfold cut_end, past_floor.
  set (end0 := Z.min (i + chunkSize) (len text)).
  destruct (Z.ltb_spec end0 (len text)) as [Hlt|Hge]; [|lia].
  pose proof (lastIndexOf_lt_len text newline end0).
  pose proof (lastIndexOf_lt_len text period end0).
  case_ltb; lia.
Qed.

Lemma slice_inside text a b :
  0 <= a <= b -> b <= len text ->
  slice text a b = take (Z.to_nat (b - a)) (drop (Z.to_nat a) text).
Proof.
  intros Ha Hb. unfold slice, rel_index.
  destruct (Z.ltb_spec a 0), (Z.ltb_spec b 0); try lia.
  rewrite !Z.min_l by lia. reflexivity.
Qed.

Lemma take_slice text a b :
  0 <= a <= b -> b <= len text ->
  take (Z.to_nat a) text ++ slice text a b = take (Z.to_nat b) text.
Proof.
  intros Ha Hb. rewrite slice_inside by lia.
  replace (Z.to_nat b) with (Z.to_nat a + Z.to_nat (b - a))%nat by lia.
  apply take_take_drop.
Qed.

Lemma take_len text : take (Z.to_nat (len text)) text = text.
Proof. unfold len. rewrite Nat2Z.id. apply firstn_all. Qed.

(** The loop invariant: the pieces pushed so far spell the text up to [i].
    With fuel for the characters that are left the loop returns, and what
    it returns spells the whole text. *)
Lemma chunk_loop_spec text chunkSize :
  0 < chunkSize ->
  forall fuel i chunks,
    0 <= i <= len text ->
    (Z.to_nat (len text - i) <= fuel)%nat ->
    concat chunks = take (Z.to_nat i) text ->
    exists pieces,
      chunk_loop fuel text chunkSize i chunks = Some pieces /\
      concat pieces = text.
Proof.
  intros Hc fuel. induction fuel as [|fuel IH]; intros i chunks Hi Hfuel Hinv.
  - assert (i = len text) as -> by lia. simpl.
    rewrite Z.ltb_irrefl. exists chunks. split; [done|].
    by rewrite Hinv, take_len.
  - simpl. destruct (Z.ltb_spec i (len text)) as [Hlt|Hge].
    + pose proof (cut_end_advances text chunkSize i Hc (conj (proj1 Hi) Hlt)) as Hadv.
      apply IH; [lia|lia|].
      rewrite concat_app, Hinv. simpl. rewrite app_nil_r.
      apply take_slice; lia.
    + assert (i = len text) as -> by lia.
      exists chunks. split; [done|]. by rewrite Hinv, take_len.
Qed.

Lemma chunk_loop_fuel_mono text chunkSize fuel :
  forall fuel' i chunks pieces,
    chunk_loop fuel text chunkSize i chunks = Some pieces ->
    (fuel <= fuel')%nat ->
    chunk_loop fuel' text chunkSize i chunks = Some pieces.
Proof.
  induction fuel as [|fuel IH]; intros fuel' i chunks pieces Hrun Hle.
  - simpl in Hrun. destruct fuel'; simpl; destruct (i <? len text); congruence.
  - destruct fuel' as [|fuel']; [lia|]. simpl in *.
    destruct (i <? len text); [|done].
    apply IH; [done|lia].
Qed.

Lemma chunkText_fuel_mono text chunkSize fuel fuel' pieces :
  chunkText fuel text chunkSize = Some pieces ->
  (fuel <= fuel')%nat ->
  chunkText fuel' text chunkSize = Some pieces.
Proof.
  unfold chunkText. destruct (len text <=? chunkSize); [done|].
  intros. by eapply chunk_loop_fuel_mono.
Qed.

(** With as much fuel as the text has characters the chunker returns, and
    its pieces spell the text. *)
Lemma chunkText_returns text chunkSize :
  0 < chunkSize ->
  exists pieces,
    chunkText (length text) text chunkSize = Some pieces /\
    concat pieces = text.
Proof.
  intros Hc. unfold chunkText.
  destruct (len text <=? chunkSize).
  - exists [text]. split; [done|]. simpl. apply app_nil_r.
  - apply chunk_loop_spec; [done| unfold len; lia | unfold len; lia | done].
Qed.

(** C1. For every text and every positive [chunkSize], [chunkText] returns
    (the text's length is enough fuel), and the pieces of any run that
    returns, concatenated in order, are the original text. *)
Theorem chunkText_roundtrip (text : list ascii) (chunkSize : Z) :
  0 < chunkSize ->
  (exists pieces, chunkText (length text) text chunkSize = Some pieces) /\
  (forall fuel pieces,
      chunkText fuel text chunkSize = Some pieces -> concat pieces = text).
Proof.
  intros Hc.
  destruct (chunkText_returns text chunkSize Hc) as (pieces & Hrun & Hcat).
  split; [by exists pieces|].
  intros fuel pieces' Hrun'.
  assert (chunkText (fuel `max` length text)%nat text chunkSize = Some pieces) as H1
    by (eapply chunkText_fuel_mono; [exact Hrun|lia]).
  assert (chunkText (fuel `max` length text)%nat text chunkSize = Some pieces') as H2
    by (eapply chunkText_fuel_mono; [exact Hrun'|lia]).
  congruence.
Qed.

Lemma chunkText_roundtrip_witness :
  0 < 5 /\
  ((exists pieces, chunkText (length sample_text) sample_text 5 = Some pieces) /\
   (forall fuel pieces,
       chunkText fuel sample_text 5 = Some pieces -> concat pieces = sample_text)).
Proof. split; [lia | apply (chunkText_roundtrip sample_text 5); lia]. Defined.

(** C10. For a positive [chunkSize], every iteration of the loop moves the cut
    position strictly forward (and not past the end of the text), so the
    chunker returns on every text: one result, reached with any fuel of at
    least the text's length, made of at most that many pieces. *)
Theorem chunkText_terminates (text : list ascii) (chunkSize : Z) :
  0 < chunkSize ->
  (forall i, 0 <= i < len text -> i < cut_end text chunkSize i <= len text) /\
  (exists pieces,
      forall fuel, (length text <= fuel)%nat ->
                   chunkText fuel text chunkSize = Some pieces).
Proof.
  intros Hc. split.
  - intros i Hi. by apply cut_end_advances.
  - destruct (chunkText_returns text chunkSize Hc) as (pieces & Hrun & _).
    exists pieces. intros fuel Hfuel. by eapply chunkText_fuel_mono.
Qed.

Lemma chunkText_terminates_witness :
  0 < 5 /\
  ((forall i, 0 <= i < len sample_text ->
              i < cut_end sample_text 5 i <= len sample_text) /\
   (exists pieces,
       forall fuel, (length sample_text <= fuel)%nat ->
                    chunkText fuel sample_text 5 = Some pieces)).
Proof. split; [lia | apply (chunkText_terminates sample_text 5); lia]. Defined.

(** *** The size of a piece *)

Lemma cut_end_bound text chunkSize i :
  0 < chunkSize -> 0 <= i < len text ->
  cut_end text chunkSize i - i <= chunkSize + 1.
Proof.
  intros Hc Hi. unfold cut_end, past_floor.
  set (end0 := Z.min (i + chunkSize) (len text)).
  assert (0 <= end0) as Hend by lia.
  pose proof (lastIndexOf_le text newline end0 Hend).
  pose proof (lastIndexOf_le text period end0 Hend).
  case_ltb; lia.
Qed.

Lemma slice_length text a b :
  0 <= a <= b -> b <= len text -> len (slice text a b) = b - a.
Proof.
  intros Ha Hb. rewrite slice_inside by lia. unfold len in *.
  rewrite length_take, length_drop. lia.
Qed.

Lemma chunk_loop_bound text chunkSize :
  0 < chunkSize ->
  forall fuel i chunks pieces,
    0 <= i ->
    Forall (fun piece => len piece <= chunkSize + 1) chunks ->
    chunk_loop fuel text chunkSize i chunks = Some pieces ->
    Forall (fun piece => len piece <= chunkSize + 1) pieces.
Proof.
  intros Hc fuel. induction fuel as [|fuel IH]; intros i chunks pieces Hi Hall;
    simpl; destruct (Z.ltb_spec i (len text)) as [Hlt|Hge]; try congruence.
  intros Hrun.
  pose proof (cut_end_advances text chunkSize i Hc (conj Hi Hlt)).
  pose proof (cut_end_bound text chunkSize i Hc (conj Hi Hlt)).
  eapply IH; [| |exact Hrun]; [lia|].
  apply Forall_app. split; [done|].
  constructor; [|done]. rewrite slice_length by lia. lia.
Qed.

(** What the code does guarantee: no piece is longer than
    [chunkSize + 1]. *)
Lemma chunkText_piece_bound text chunkSize fuel pieces :
  0 < chunkSize ->
  chunkText fuel text chunkSize = Some pieces ->
  Forall (fun piece => len piece <= chunkSize + 1) pieces.
Proof.
  intros Hc. unfold chunkText.
  destruct (Z.leb_spec (len text) chunkSize) as [Hle|Hgt].
  - intros [= <-]. constructor; [lia|done].
  - apply chunk_loop_bound; [done|lia|done].
Qed.

Lemma scan_back_hit text c k :
  text !! k = Some c -> scan_back text c (S k) = Z.of_nat k.
Proof. intros H. simpl. by rewrite bool_decide_eq_true_2. Qed.

(** A line feed at the cut point itself is accepted, and the piece ends
    after it. *)
Lemma cut_end_newline_at_cut text chunkSize i :
  0 < chunkSize -> 0 <= i -> i + chunkSize < len text ->
  text !! Z.to_nat (i + chunkSize) = Some newline ->
  cut_end text chunkSize i = i + chunkSize + 1.
Proof.
  intros Hc Hi Hlen Hnl. unfold cut_end, lastIndexOf, past_floor.
  rewrite Z.min_l by lia.
  destruct (Z.ltb_spec (i + chunkSize) (len text)); [|lia].
  rewrite Z.max_l, Z.min_l by lia.
  replace (Z.to_nat (i + chunkSize + 1)) with (S (Z.to_nat (i + chunkSize))) by lia.
  rewrite (scan_back_hit _ _ _ Hnl), Z2Nat.id by lia.
  destruct (Z.ltb_spec (4 * chunkSize) (5 * (i + chunkSize - i))); lia.
Qed.

Lemma chunk_loop_extends text chunkSize fuel : forall i chunks pieces,
  chunk_loop fuel text chunkSize i chunks = Some pieces ->
  exists more, pieces = chunks ++ more /\ (i < len text -> more <> []).
Proof.
  induction fuel as [|fuel IH]; intros i chunks pieces; simpl;
    destruct (Z.ltb_spec i (len text)) as [Hlt|Hge]; try done.
  - intros [= <-]. exists []. split; [by rewrite app_nil_r|lia].
  - intros (more & -> & _)%IH. rewrite <- app_assoc. eexists. split; [done|]. done.
  - intros [= <-]. exists []. split; [by rewrite app_nil_r|lia].
Qed.

(** For every positive [chunkSize]: a text longer than [chunkSize + 1]
    with a line feed at index [chunkSize] gets a first piece of
    [chunkSize + 1] characters, followed by at least one more piece. *)
Lemma chunkText_newline_at_cut_point text chunkSize fuel pieces :
  0 < chunkSize -> chunkSize + 1 < len text ->
  text !! Z.to_nat chunkSize = Some newline ->
  chunkText fuel text chunkSize = Some pieces ->
  exists rest,
    pieces = slice text 0 (chunkSize + 1) :: rest /\ rest <> []
    /\ len (slice text 0 (chunkSize + 1)) = chunkSize + 1.
Proof.
  intros Hc Hlen Hnl. unfold chunkText.
  destruct (Z.leb_spec (len text) chunkSize); [lia|].
  destruct fuel as [|fuel]; simpl;
    (destruct (Z.ltb_spec 0 (len text)); [|lia]); [done|].
  rewrite (cut_end_newline_at_cut text chunkSize 0) by (done || lia).
  simpl. intros (more & -> & Hmore)%chunk_loop_extends.
  exists more. split; [done|]. split; [apply Hmore; lia|].
  rewrite slice_length; lia.
Qed.

(** With [chunkSize = 0] the cut position never moves: on a text that is
    not empty the loop does not return. *)
Lemma cut_end_zero text i :
  0 <= i < len text -> cut_end text 0 i = i.
Proof.
  intros Hi. unfold cut_end, past_floor.
  rewrite Z.add_0_r, Z.min_l by lia.
  destruct (Z.ltb_spec i (len text)); [|lia].
  pose proof (lastIndexOf_le text newline i (proj1 Hi)).
  pose proof (lastIndexOf_le text period i (proj1 Hi)).
  case_ltb; lia.
Qed.

Lemma chunkText_zero_stuck text fuel :
  text <> [] -> chunkText fuel text 0 = None.
Proof.
  intros Hne. unfold chunkText.
  assert (0 < len text) by (unfold len; destruct text; [done|simpl; lia]).
  destruct (Z.leb_spec (len text) 0); [lia|].
  generalize (@nil (list ascii)) as chunks.
  induction fuel as [|fuel IH]; intros chunks; simpl;
    (destruct (Z.ltb_spec 0 (len text)); [|lia]); [done|].
  rewrite cut_end_zero by lia. apply IH.
Qed.

(** The call [chunkText(file.content)] of ingestion, with the default
    size, returns on every text. *)
Lemma chunkText_default_returns text :
  exists pieces,
    forall fuel, (length text <= fuel)%nat ->
                 chunkText fuel text default_chunkSize = Some pieces.
Proof.
  destruct (chunkText_returns text default_chunkSize) as (pieces & Hrun & _);
    [done|].
  exists pieces. intros fuel Hfuel. by eapply chunkText_fuel_mono.
Qed.

(** C3. A text of 60001 characters whose only line feed is at index 50000,
    cut with the default size 50000: the line feed sits at the cut point
    itself, where [lastIndexOf] still finds it; it is past the 80% floor, so
    the first piece ends after it and has 50001 characters.  The piece is
    not the last one, it is longer than [chunkSize], and a safe break point
    did exist for it.  The same on nine characters with [chunkSize = 5]. *)
Theorem chunkText_piece_exceeds_chunkSize :
  map len <$> chunkText (length long_text) long_text default_chunkSize
  = Some [default_chunkSize + 1; 10000]
  /\ safe_break long_text default_chunkSize 0 50000
  /\ chunkText (length sample_text) sample_text 5
     = Some [list_ascii_of_string "abcde" ++ [newline]; list_ascii_of_string "fgh"]
  /\ len (list_ascii_of_string "abcde" ++ [newline]) = 5 + 1
  /\ safe_break sample_text 5 0 5.
Proof.
  split; [vm_compute; reflexivity|].
  split.
  { split; [left; vm_compute; reflexivity|].
    split; [vm_compute; intuition congruence|reflexivity]. }
  split; [reflexivity|]. split; [reflexivity|].
  split; [left; reflexivity|].
  split; [vm_compute; intuition congruence|reflexivity].
Qed.

(** ** Ingestion *)

Lemma aggregate_complete results v :
  aggregate results = Ok v -> structurally_complete v = true.
Proof.
  unfold aggregate. intros H.
  destruct (map_summary results); simpl in H; [|done].
  destruct (flatMap_key "topics" results); simpl in H; [|done].
  destruct (flatMap_key "risks" results); simpl in H; [|done].
  destruct (flatMap_key "keyPoints" results); simpl in H; [|done].
  destruct (flatMap_key "entities" results); simpl in H; [|done].
  by injection H as <-.
Qed.

(** Ingestion returns a value for every document, model and parser: the
    chunker has fuel enough and every exception is caught. *)
Lemma processDocumentIngestion_returns generateContent JSON_parse file :
  exists v, processDocumentIngestion generateContent JSON_parse file = Some v.
Proof.
  unfold processDocumentIngestion.
  destruct (_ || _); [by eexists|].
  destruct (chunkText_returns (list_ascii_of_string (file_content file))
              default_chunkSize) as (pieces & -> & _); [done|].
  by eexists.
Qed.

(** On the chunked path the record has its five fields, whatever the model
    answered. *)
Lemma processDocumentIngestion_chunked_complete generateContent JSON_parse file v :
  String.eqb (file_type file) "application/pdf" = false ->
  60000 <= Z.of_nat (String.length (file_content file)) ->
  processDocumentIngestion generateContent JSON_parse file = Some v ->
  structurally_complete v = true.
Proof.
  intros Hpdf Hlen. unfold processDocumentIngestion. rewrite Hpdf.
  destruct (Z.ltb_spec (Z.of_nat (String.length (file_content file))) 60000);
    [lia|]. simpl.
  destruct (chunkText _ _ _) as [chunks|]; [|done]. simpl.
  intros [= <-].
  destruct (aggregate _) as [w|m] eqn:Hagg; simpl; [|done].
  by eapply aggregate_complete.
Qed.

Lemma processChunk_throws JSON_parse call text isPDF fileName :
  processChunk always_throws JSON_parse call text isPDF fileName
  = empty_structure.
Proof. reflexivity. Qed.

Lemma process_chunks_throws JSON_parse chunks fileName : forall call,
  process_chunks always_throws JSON_parse call chunks fileName
  = replicate (length chunks) empty_structure.
Proof. induction chunks as [|c chunks IH]; intros call; simpl; [done|]. by rewrite IH. Qed.

Lemma flatMap_key_empties key n :
  (key = "topics" \/ key = "risks" \/ key = "keyPoints" \/ key = "entities") ->
  flatMap_key key (replicate n empty_structure) = Ok [].
Proof.
  intros Hkey. induction n as [|n IH]; [done|].
  simpl replicate. simpl flatMap_key. rewrite IH.
  destruct Hkey as [->|[->|[->| ->]]]; reflexivity.
Qed.

Lemma map_summary_empties n :
  map_summary (replicate n empty_structure) = Ok (replicate n (Some (JStr ""))).
Proof.
  induction n as [|n IH]; [done|].
  simpl replicate. simpl map_summary. by rewrite IH.
Qed.

Lemma filter_truthy_empties n :
  filter (fun s => truthy s = true) (replicate n (Some (JStr ""))) = [].
Proof. induction n as [|n IH]; [done|]. simpl replicate. by rewrite filter_cons_False. Qed.

Lemma aggregate_empties n :
  aggregate (replicate n empty_structure) = Ok empty_structure.
Proof.
  unfold aggregate.
  rewrite map_summary_empties, !flatMap_key_empties by tauto.
  simpl. by rewrite filter_truthy_empties.
Qed.

(** When every model call throws, ingestion returns the record with an
    empty summary and empty collections. *)
Lemma processDocumentIngestion_all_throw JSON_parse file :
  processDocumentIngestion always_throws JSON_parse file = Some empty_structure.
Proof.
  unfold processDocumentIngestion.
  destruct (_ || _); [done|].
  destruct (chunkText_returns (list_ascii_of_string (file_content file))
              default_chunkSize) as (pieces & -> & _); [done|].
  simpl. by rewrite process_chunks_throws, aggregate_empties.
Qed.

(** C4. A text document of two characters, a model that answers [{}] and
    the parser that reads [{}] as the empty object: no call throws, the
    document takes the single-call path, and ingestion returns the parsed
    value as it is, an object with none of the five fields. *)
Theorem processDocumentIngestion_incomplete_record :
  processDocumentIngestion (reply_with "{}") (parse_as "{}" (JObj []))
                           (text_file "notes.txt" "hi")
  = Some (JObj [])
  /\ structurally_complete (JObj []) = false
  /\ processChunk (reply_with "{}") (parse_as "{}" (JObj [])) 0 "hi" false "notes.txt"
     = JObj [].
Proof. repeat split; reflexivity. Qed.

(** *** The merge policy *)

Lemma existsb_sameValueZero_JStr x seen :
  existsb (sameValueZero (JStr x)) (map JStr seen) = bool_decide (x ∈ seen).
Proof.
  induction seen as [|y seen IH].
  - cbn [map existsb]. symmetry. apply bool_decide_eq_false_2, not_elem_of_nil.
  - cbn [map existsb sameValueZero]. rewrite IH.
    destruct (String.eqb_spec x y) as [->|Hne]; cbn [orb].
    + symmetry. apply bool_decide_eq_true_2. by left.
    + apply bool_decide_ext. rewrite elem_of_cons. naive_solver.
Qed.

Lemma set_from_aux_strings l : forall seen,
  set_from_aux (map JStr seen) (map JStr l)
  = map JStr (first_occurrences_aux seen l).
Proof.
  induction l as [|x l IH]; intros seen; simpl; [done|].
  rewrite existsb_sameValueZero_JStr.
  case_bool_decide; [apply IH|].
  simpl. f_equal. apply (IH (x :: seen)).
Qed.

Lemma Array_from_Set_strings l :
  Array_from_Set (map JStr l) = map JStr (first_occurrences l).
Proof. apply (set_from_aux_strings l []). Qed.

Lemma first_occurrences_aux_elem l : forall seen x,
  x ∈ first_occurrences_aux seen l <-> x ∈ l /\ x ∉ seen.
Proof.
  induction l as [|y l IH]; intros seen x; simpl.
  - rewrite elem_of_nil. tauto.
  - case_bool_decide as Hy.
    + rewrite IH, elem_of_cons. naive_solver.
    + rewrite !elem_of_cons, IH, elem_of_cons.
      destruct (decide (x = y)) as [->|Hne]; naive_solver.
Qed.

Lemma first_occurrences_aux_NoDup l : forall seen,
  NoDup (first_occurrences_aux seen l).
Proof.
  induction l as [|y l IH]; intros seen; simpl; [constructor|].
  case_bool_decide; [apply IH|].
  constructor; [|apply IH].
  rewrite first_occurrences_aux_elem, elem_of_cons. naive_solver.
Qed.

Lemma first_occurrences_aux_id l : forall seen,
  NoDup l -> (forall x, x ∈ l -> x ∉ seen) ->
  first_occurrences_aux seen l = l.
Proof.
  induction l as [|y l IH]; intros seen Hnd Hseen; simpl; [done|].
  apply NoDup_cons in Hnd as [Hy Hnd].
  rewrite bool_decide_eq_false_2 by (apply Hseen; by left).
  f_equal. apply IH; [done|].
  intros x Hx. rewrite elem_of_cons. intros [->|Hin]; [done|].
  revert Hin. apply Hseen. by right.
Qed.

Lemma first_occurrences_NoDup l : NoDup (first_occurrences l).
Proof. apply first_occurrences_aux_NoDup. Qed.

Lemma first_occurrences_elem l x : x ∈ first_occurrences l <-> x ∈ l.
Proof.
  unfold first_occurrences. rewrite first_occurrences_aux_elem, elem_of_nil. tauto.
Qed.

Lemma first_occurrences_id l : NoDup l -> first_occurrences l = l.
Proof. intros. apply first_occurrences_aux_id; [done|]. intros x _. apply not_elem_of_nil. Qed.

Lemma flatMap_key_topics results :
  flatMap_key "topics" (map ProcessedData_json results)
  = Ok (map JStr (concat (map topics results))).
Proof.
  induction results as [|p results IH]; [done|].
  simpl map. simpl flatMap_key. rewrite IH. simpl. by rewrite map_app.
Qed.

Lemma flatMap_key_entities results :
  flatMap_key "entities" (map ProcessedData_json results)
  = Ok (map JStr (concat (map entities results))).
Proof.
  induction results as [|p results IH]; [done|].
  simpl map. simpl flatMap_key. rewrite IH. simpl. by rewrite map_app.
Qed.

Lemma flatMap_key_keyPoints results :
  flatMap_key "keyPoints" (map ProcessedData_json results)
  = Ok (map JStr (concat (map keyPoints results))).
Proof.
  induction results as [|p results IH]; [done|].
  simpl map. simpl flatMap_key. rewrite IH. simpl. by rewrite map_app.
Qed.

Lemma flatMap_key_risks results :
  flatMap_key "risks" (map ProcessedData_json results)
  = Ok (map Risk_json (concat (map risks results))).
Proof.
  induction results as [|p results IH]; [done|].
  simpl map. simpl flatMap_key. rewrite IH. simpl. by rewrite map_app.
Qed.

Lemma map_summary_typed results :
  map_summary (map ProcessedData_json results)
  = Ok (map (fun p => Some (JStr (summary p))) results).
Proof.
  induction results as [|p results IH]; [done|].
  simpl map. simpl map_summary. by rewrite IH.
Qed.

Lemma kept_summaries results :
  map toString_opt
      (filter (fun s => truthy s = true)
              (map (fun p => Some (JStr (summary p))) results))
  = List.filter (fun s => negb (String.eqb s "")) (map summary results).
Proof.
  induction results as [|p results IH]; [done|]. simpl.
  destruct (negb (String.eqb (summary p) "")) eqn:Hs.
  - rewrite filter_cons_True by done. simpl. by rewrite IH.
  - rewrite filter_cons_False by (simpl; congruence). apply IH.
Qed.

Lemma elem_of_concat_map {A B} (f : A -> list B) (l : list A) (x : B) :
  x ∈ concat (map f l) <-> exists r, r ∈ l /\ x ∈ f r.
Proof.
  induction l as [|a l IH]; simpl.
  - rewrite elem_of_nil. split; [done|]. by intros (r & ?%elem_of_nil & _).
  - rewrite elem_of_app, IH. setoid_rewrite elem_of_cons. naive_solver.
Qed.

(** On well-shaped chunk results the aggregation step of the code is the
    merge policy of the spec. *)
Lemma aggregate_typed results :
  aggregate (map ProcessedData_json results)
  = Ok (ProcessedData_json (merge_spec results)).
Proof.
  unfold aggregate.
  rewrite map_summary_typed, flatMap_key_topics, flatMap_key_risks,
    flatMap_key_keyPoints, flatMap_key_entities.
  simpl. rewrite kept_summaries, !Array_from_Set_strings. reflexivity.
Qed.

(** A text document of 60000 characters or more is chunked, each chunk is
    extracted, and the results are aggregated. *)
Lemma processDocumentIngestion_chunked generateContent JSON_parse file chunks
    (results : list ProcessedData) :
  String.eqb (file_type file) "application/pdf" = false ->
  60000 <= Z.of_nat (String.length (file_content file)) ->
  chunkText (length (list_ascii_of_string (file_content file)))
            (list_ascii_of_string (file_content file)) default_chunkSize
  = Some chunks ->
  process_chunks generateContent JSON_parse 0 chunks (file_name file)
  = map ProcessedData_json results ->
  processDocumentIngestion generateContent JSON_parse file
  = Some (ProcessedData_json (merge_spec results)).
Proof.
  intros Hpdf Hlen Hchunks Hres. unfold processDocumentIngestion.
  rewrite Hpdf.
  destruct (Z.ltb_spec (Z.of_nat (String.length (file_content file))) 60000);
    [lia|].
  cbn [orb]. rewrite Hchunks. simpl. by rewrite Hres, aggregate_typed.
Qed.

(** C5. Aggregating well-shaped chunk results gives the merged record of
    the spec: topics and entities are duplicate-free listings of exactly
    the strings some chunk has, risks and key points are the plain
    concatenations, duplicates kept.  Chunks with topics [A; B] and [B; C]
    and risks [r1] and [r2] merge to the three topics [A; B; C] and the two
    risks [r1; r2], and so does the ingestion of a document of two chunks
    for which the model gives these two results. *)
Theorem aggregate_merge_semantics (results : list ProcessedData) :
  aggregate (map ProcessedData_json results)
  = Ok (ProcessedData_json (merge_spec results))
  /\ NoDup (topics (merge_spec results))
  /\ NoDup (entities (merge_spec results))
  /\ (forall x, x ∈ topics (merge_spec results)
                <-> exists r, r ∈ results /\ x ∈ topics r)
  /\ (forall x, x ∈ entities (merge_spec results)
                <-> exists r, r ∈ results /\ x ∈ entities r)
  /\ risks (merge_spec results) = concat (map risks results)
  /\ keyPoints (merge_spec results) = concat (map keyPoints results)
  /\ topics (merge_spec [chunk_AB; chunk_BC]) = ["A"; "B"; "C"]
  /\ risks (merge_spec [chunk_AB; chunk_BC])
     = [ {| risk := "r1"; category := "Legal" |};
         {| risk := "r2"; category := "Legal" |} ]
  /\ keyPoints (merge_spec [chunk_AB; chunk_BC]) = ["k"; "k"]
  /\ processDocumentIngestion two_replies two_parses
       (text_file "long.txt" (string_of_list_ascii long_text))
     = Some (ProcessedData_json (merge_spec [chunk_AB; chunk_BC])).
Proof.
  split; [apply aggregate_typed|].
  split; [apply first_occurrences_NoDup|].
  split; [apply first_occurrences_NoDup|].
  split.
  { intros x. simpl. by rewrite first_occurrences_elem, elem_of_concat_map. }
  split.
  { intros x. simpl. by rewrite first_occurrences_elem, elem_of_concat_map. }
  repeat split; reflexivity.
Qed.

(** *** The single-call path *)

(** A document that needs no chunking gets the result of its one
    extraction call, as it is. *)
Lemma processDocumentIngestion_single generateContent JSON_parse file :
  String.eqb (file_type file) "application/pdf"
  || (Z.of_nat (String.length (file_content file)) <? 60000) = true ->
  processDocumentIngestion generateContent JSON_parse file
  = Some (processChunk generateContent JSON_parse 0 (file_content file)
            (String.eqb (file_type file) "application/pdf") (file_name file)).
Proof. intros H. unfold processDocumentIngestion. by rewrite H. Qed.

Lemma cap_summary_short s :
  Z.of_nat (String.length s) <= 2000 -> cap_summary s = s.
Proof.
  intros H. unfold cap_summary.
  destruct (Z.ltb_spec 2000 (Z.of_nat (String.length s))); [lia|done].
Qed.

Lemma map_JStr_inj l l' : map JStr l = map JStr l' -> l = l'.
Proof.
  revert l'. induction l as [|x l IH]; intros [|x' l'] H; try done.
  injection H as -> H. f_equal. by apply IH.
Qed.

Lemma map_Risk_json_inj l l' : map Risk_json l = map Risk_json l' -> l = l'.
Proof.
  revert l'. induction l as [|[r c] l IH]; intros [|[r' c'] l'] H; try done.
  injection H as -> -> H. f_equal. by apply IH.
Qed.

Lemma ProcessedData_json_inj p q :
  ProcessedData_json p = ProcessedData_json q -> p = q.
Proof.
  destruct p, q. unfold ProcessedData_json. simpl.
  intros [= -> Ht%map_JStr_inj Hr%map_Risk_json_inj Hk%map_JStr_inj
            He%map_JStr_inj].
  by subst.
Qed.

Lemma first_occurrences_fixed l : first_occurrences l = l <-> NoDup l.
Proof.
  split; [|apply first_occurrences_id].
  intros <-. apply first_occurrences_NoDup.
Qed.

(** Aggregating one record gives it back exactly when the set conversions
    and the cap on the summary have nothing to change. *)
Lemma merge_spec_one_iff p :
  merge_spec [p] = p
  <-> NoDup (topics p) /\ NoDup (entities p)
      /\ cap_summary (summary p) = summary p.
Proof.
  destruct p as [s t r k e]. unfold merge_spec. simpl.
  rewrite !app_nil_r.
  assert (cap_summary (join (nl ++ nl)
                         (if negb (String.eqb s "") then [s] else []))
          = cap_summary s) as Hsum.
  { by destruct (String.eqb_spec s "") as [->|Hne]. }
  rewrite Hsum. split.
  - intros [= Hs Ht He]. by rewrite <- !first_occurrences_fixed.
  - intros (Ht%first_occurrences_fixed & He%first_occurrences_fixed & Hs).
    by rewrite Hs, Ht, He.
Qed.

(** C6, as the code has it.  A document that needs no chunking, whose
    single extraction call gives a complete record, gets that record as it
    is: neither made duplicate-free nor capped.  This is the aggregation of
    the one-element sequence holding the record exactly when its topics
    and its entities have no duplicates and the cap leaves its summary as
    it is, which it does for a summary of at most 2000 characters. *)
Theorem single_chunk_is_aggregate_of_one
    (generateContent : nat -> list Part -> Result Response)
    (JSON_parse : string -> Result JSON) (file : LocalFile)
    (p : ProcessedData) :
  String.eqb (file_type file) "application/pdf"
  || (Z.of_nat (String.length (file_content file)) <? 60000) = true ->
  processChunk generateContent JSON_parse 0 (file_content file)
    (String.eqb (file_type file) "application/pdf") (file_name file)
  = ProcessedData_json p ->
  processDocumentIngestion generateContent JSON_parse file
  = Some (ProcessedData_json p)
  /\ (aggregate [ProcessedData_json p] = Ok (ProcessedData_json p)
      <-> NoDup (topics p) /\ NoDup (entities p)
          /\ cap_summary (summary p) = summary p)
  /\ (Z.of_nat (String.length (summary p)) <= 2000 ->
      cap_summary (summary p) = summary p).
Proof.
  intros Hsmall Hchunk. split.
  { by rewrite processDocumentIngestion_single, Hchunk. }
  split; [|apply cap_summary_short].
  change [ProcessedData_json p] with (map ProcessedData_json [p]).
  rewrite aggregate_typed, <- merge_spec_one_iff. split.
  - intros H. apply ProcessedData_json_inj. congruence.
  - by intros ->.
Qed.

Lemma single_chunk_is_aggregate_of_one_witness :
  processDocumentIngestion (reply_with "r")
    (parse_as "r" (ProcessedData_json chunk_AA)) (text_file "notes.txt" "hi")
  = Some (ProcessedData_json chunk_AA)
  /\ (aggregate [ProcessedData_json chunk_AA] = Ok (ProcessedData_json chunk_AA)
      <-> NoDup (topics chunk_AA) /\ NoDup (entities chunk_AA)
          /\ cap_summary (summary chunk_AA) = summary chunk_AA)
  /\ (Z.of_nat (String.length (summary chunk_AA)) <= 2000 ->
      cap_summary (summary chunk_AA) = summary chunk_AA).
Proof.
  apply (single_chunk_is_aggregate_of_one (reply_with "r")
           (parse_as "r" (ProcessedData_json chunk_AA))
           (text_file "notes.txt" "hi") chunk_AA).
  - reflexivity.
  - reflexivity.
Defined.

(** C6, as the spec words it, fails: the chunk result with topics [A; A]
    is returned as it is, while aggregating the one-element sequence
    removes the duplicate topic. *)
Lemma single_chunk_not_aggregated :
  processDocumentIngestion (reply_with "r")
    (parse_as "r" (ProcessedData_json chunk_AA)) (text_file "notes.txt" "hi")
  = Some (ProcessedData_json chunk_AA)
  /\ processChunk (reply_with "r") (parse_as "r" (ProcessedData_json chunk_AA))
       0 "hi" false "notes.txt"
     = ProcessedData_json chunk_AA
  /\ aggregate [ProcessedData_json chunk_AA]
     = Ok (ProcessedData_json
             {| summary := "s"; topics := ["A"]; risks := []; keyPoints := [];
                entities := [] |})
  /\ aggregate [ProcessedData_json chunk_AA] <> Ok (ProcessedData_json chunk_AA).
Proof. repeat split; try reflexivity. vm_compute. discriminate. Qed.

(** ** Session manager *)

(** *** The fingerprint *)

Lemma generateFileHash_keys files files' :
  map file_key files = map file_key files' ->
  generateFileHash files = generateFileHash files'.
Proof.
  unfold generateFileHash. intros H. f_equal.
  revert files' H. induction files as [|f files IH]; intros [|f' files'] H;
    simpl in *; try done.
  injection H as Hname Hsize Hrest. rewrite Hname, Hsize.
  f_equal. by apply IH.
Qed.

Lemma occurs_app c s1 s2 :
  occurs c (s1 ++ s2) = occurs c s1 || occurs c s2.
Proof. induction s1 as [|a s1 IH]; simpl; [done|]. by rewrite IH, orb_assoc. Qed.

(** Splitting at the first occurrence of [c]. *)
Lemma split_first c a : forall a' b b',
  occurs c a = false -> occurs c a' = false ->
  (a ++ String c b)%string = (a' ++ String c b')%string ->
  a = a' /\ b = b'.
Proof.
  induction a as [|x a IH]; intros [|x' a'] b b' Ha Ha' Heq; simpl in *.
  - by injection Heq as ->.
  - injection Heq as <- _. by rewrite Ascii.eqb_refl in Ha'.
  - injection Heq as -> _. by rewrite Ascii.eqb_refl in Ha.
  - injection Heq as -> Heq.
    apply orb_false_iff in Ha as [_ Ha]. apply orb_false_iff in Ha' as [_ Ha'].
    destruct (IH a' b b' Ha Ha' Heq) as [-> ->]. done.
Qed.

(** Splitting at the last occurrence of [c]. *)
Lemma split_last c a : forall a' b b',
  occurs c b = false -> occurs c b' = false ->
  (a ++ String c b)%string = (a' ++ String c b')%string ->
  a = a' /\ b = b'.
Proof.
  induction a as [|x a IH]; intros [|x' a'] b b' Hb Hb' Heq; simpl in *.
  - by injection Heq as ->.
  - injection Heq as _ ->.
    rewrite occurs_app in Hb. simpl in Hb.
    rewrite Ascii.eqb_refl, orb_true_r in Hb. done.
  - injection Heq as _ <-.
    rewrite occurs_app in Hb'. simpl in Hb'.
    rewrite Ascii.eqb_refl, orb_true_r in Hb'. done.
  - injection Heq as -> Heq.
    destruct (IH a' b b' Hb Hb' Heq) as [-> ->]. done.
Qed.

Lemma pretty_N_char_other c x :
  c = "-"%char \/ c = "|"%char -> Ascii.eqb (pretty_N_char x) c = false.
Proof.
  intros [-> | ->]; unfold pretty_N_char; by repeat case_match.
Qed.

Lemma occurs_pretty_N_go c x : forall s,
  c = "-"%char \/ c = "|"%char ->
  occurs c (pretty_N_go x s) = occurs c s.
Proof.
  induction (N.lt_wf_0 x) as [x _ IH]; intros s Hc.
  destruct (decide (x = 0)%N) as [->|Hx]; [done|].
  rewrite pretty_N_go_step by lia.
  rewrite IH by (done || apply N.div_lt; lia).
  simpl. by rewrite pretty_N_char_other.
Qed.

Lemma occurs_pretty_Z c (n : Z) :
  c = "-"%char \/ c = "|"%char -> 0 <= n -> occurs c (pretty n) = false.
Proof.
  intros Hc Hn. destruct n as [|p|p]; [by destruct Hc as [-> | ->]| |lia].
  unfold pretty, pretty_Z, pretty, pretty_positive, pretty, pretty_N.
  rewrite decide_False by done. by rewrite occurs_pretty_N_go.
Qed.

(** One item of the fingerprint determines the name and the size. *)
Lemma item_inj (name1 name2 : string) (size1 size2 : Z) :
  0 <= size1 -> 0 <= size2 ->
  (name1 ++ "-" ++ pretty size1)%string = (name2 ++ "-" ++ pretty size2)%string ->
  name1 = name2 /\ size1 = size2.
Proof.
  intros H1 H2 Heq.
  apply split_last in Heq as [-> Hp];
    [|apply occurs_pretty_Z; auto..].
  split; [done|]. by apply (inj pretty).
Qed.

Lemma occurs_item (name0 : string) (size0 : Z) :
  occurs "|" name0 = false -> 0 <= size0 ->
  occurs "|" (name0 ++ "-" ++ pretty size0) = false.
Proof.
  intros Hn Hs. rewrite occurs_app, Hn. simpl.
  apply occurs_pretty_Z; auto.
Qed.

Lemma join_bar_inj xs : forall ys,
  Forall (fun x => occurs "|" x = false /\ x <> "") xs ->
  Forall (fun x => occurs "|" x = false /\ x <> "") ys ->
  join "|" xs = join "|" ys -> xs = ys.
Proof.
  induction xs as [|x xs IH]; intros ys Hxs Hys Heq.
  - destruct ys as [|y [|y2 ys]]; [done|..]; simpl in Heq.
    + apply Forall_cons in Hys as [[_ Hy] _]. congruence.
    + apply Forall_cons in Hys as [[_ Hy] _]. destruct y; [done|discriminate].
  - apply Forall_cons in Hxs as [[Hx Hx0] Hxs].
    destruct ys as [|y ys].
    { destruct xs; simpl in Heq; [congruence|]. destruct x; [done|discriminate]. }
    apply Forall_cons in Hys as [[Hy Hy0] Hys].
    destruct xs as [|x2 xs], ys as [|y2 ys].
    + simpl in Heq. by subst.
    + simpl in Heq. subst x. rewrite occurs_app in Hx. simpl in Hx.
      by rewrite orb_true_r in Hx.
    + simpl in Heq. subst y. rewrite occurs_app in Hy. simpl in Hy.
      by rewrite orb_true_r in Hy.
    + change (join "|" (x :: x2 :: xs)) with (x ++ String "|" (join "|" (x2 :: xs)))%string in Heq.
      change (join "|" (y :: y2 :: ys)) with (y ++ String "|" (join "|" (y2 :: ys)))%string in Heq.
      apply split_first in Heq as [-> Heq]; [|done..].
      f_equal. by apply IH.
Qed.

(** Where no file name contains the separator and sizes are byte counts,
    equal fingerprints mean equal names and sizes, file by file. *)
Lemma generateFileHash_inj files files' :
  plain_files files -> plain_files files' ->
  generateFileHash files = generateFileHash files' ->
  map file_key files = map file_key files'.
Proof.
  unfold generateFileHash, plain_files. intros Hp Hp' Heq.
  apply join_bar_inj in Heq.
  - revert files' Hp' Heq. induction Hp as [|f files [_ Hf] _ IH];
      intros files' Hp' Heq; destruct Hp' as [|f' files' [_ Hf'] Hp']; simpl in *;
      try done.
    injection Heq as Hitem Hrest.
    apply item_inj in Hitem as [Hn Hs]; [|done..].
    unfold file_key at 1 3. rewrite Hn, Hs. f_equal. by apply IH.
  - apply Forall_fmap. eapply Forall_impl; [exact Hp|].
    intros f [Hn Hs]. simpl. split; [by apply occurs_item|].
    destruct (file_name f); discriminate.
  - apply Forall_fmap. eapply Forall_impl; [exact Hp'|].
    intros f [Hn Hs]. simpl. split; [by apply occurs_item|].
    destruct (file_name f); discriminate.
Qed.

(** *** Reuse or re-seed *)

Lemma ensure_session_reuse files s c :
  chatSession s = Some c ->
  generateFileHash files = currentFileContextHash s ->
  ensure_session files s = s.
Proof.
  intros Hc Hh. unfold ensure_session.
  rewrite Hc, Hh, String.eqb_refl. done.
Qed.

Lemma ensure_session_create files s :
  chatSession s = None \/ generateFileHash files <> currentFileContextHash s ->
  ensure_session files s
  = {| chatSession := Some (new_chat files s);
       currentFileContextHash := generateFileHash files;
       chats_created := S (chats_created s) |}.
Proof.
  intros H. unfold ensure_session.
  destruct H as [-> | Hne]; [done|].
  apply String.eqb_neq in Hne. rewrite Hne. by rewrite orb_true_r.
Qed.

Lemma ensure_session_some files s :
  exists c, chatSession (ensure_session files s) = Some c
            /\ currentFileContextHash (ensure_session files s)
               = generateFileHash files.
Proof.
  destruct (chatSession s) as [c|] eqn:Hc.
  - destruct (decide (generateFileHash files = currentFileContextHash s)) as [Hh|Hh].
    + rewrite (ensure_session_reuse files s c) by done. eauto.
    + rewrite ensure_session_create by auto. eauto.
  - rewrite ensure_session_create by auto. eauto.
Qed.

(** C7, as the code has it.  With a session present and the fingerprint of
    the files equal to the stored one, [streamGeminiResponse] leaves session
    handle, fingerprint and the count of created sessions as they are: no
    session is built, nothing is seeded.  With no session, or a different
    fingerprint, it builds a new session, seeded with the parts of the files
    and with the system instruction for them, and stores the new
    fingerprint.  A second call with the same names and sizes reuses the
    session of the first.  A second call with changed names or sizes builds
    a new session when no file name contains the separator [|] and the sizes
    are byte counts. *)
Theorem streamGeminiResponse_session_policy
    (userMessage : string) (files : list LocalFile) (stream : Stream)
    (s : Session) :
  ((exists c, chatSession s = Some c)
   /\ generateFileHash files = currentFileContextHash s ->
   fst (streamGeminiResponse userMessage files stream s) = s)
  /\ (chatSession s = None
      \/ generateFileHash files <> currentFileContextHash s ->
      fst (streamGeminiResponse userMessage files stream s)
      = {| chatSession := Some (new_chat files s);
           currentFileContextHash := generateFileHash files;
           chats_created := S (chats_created s) |})
  /\ (forall userMessage2 files2 stream2,
        map file_key files2 = map file_key files ->
        fst (streamGeminiResponse userMessage2 files2 stream2
               (fst (streamGeminiResponse userMessage files stream s)))
        = fst (streamGeminiResponse userMessage files stream s))
  /\ (forall userMessage2 files2 stream2,
        plain_files files -> plain_files files2 ->
        map file_key files2 <> map file_key files ->
        fst (streamGeminiResponse userMessage2 files2 stream2
               (fst (streamGeminiResponse userMessage files stream s)))
        = {| chatSession :=
               Some (new_chat files2
                       (fst (streamGeminiResponse userMessage files stream s)));
             currentFileContextHash := generateFileHash files2;
             chats_created :=
               S (chats_created
                    (fst (streamGeminiResponse userMessage files stream s))) |}).
Proof.
  simpl. split; [|split; [|split]].
  - intros [[c Hc] Hh]. by eapply ensure_session_reuse.
  - apply ensure_session_create.
  - intros _ files2 _ Hkeys.
    destruct (ensure_session_some files s) as (c & Hc & Hh).
    eapply ensure_session_reuse; [exact Hc|].
    rewrite Hh. by apply generateFileHash_keys.
  - intros _ files2 _ Hp Hp2 Hkeys.
    destruct (ensure_session_some files s) as (c & Hc & Hh).
    apply ensure_session_create. right. rewrite Hh.
    intros Heq. apply Hkeys. by apply generateFileHash_inj.
Qed.

Lemma streamGeminiResponse_session_policy_witness :
  fst (streamGeminiResponse "q2" [named_file "a.txt" 2] stream_done
         (fst (streamGeminiResponse "q1" [named_file "a.txt" 1] stream_done
                 initial_session)))
  = {| chatSession :=
         Some (new_chat [named_file "a.txt" 2]
                 (fst (streamGeminiResponse "q1" [named_file "a.txt" 1]
                         stream_done initial_session)));
       currentFileContextHash := generateFileHash [named_file "a.txt" 2];
       chats_created :=
         S (chats_created
              (fst (streamGeminiResponse "q1" [named_file "a.txt" 1]
                      stream_done initial_session))) |}.
Proof.
  apply (streamGeminiResponse_session_policy "q1" [named_file "a.txt" 1]
           stream_done initial_session).
  - repeat constructor. discriminate.
  - repeat constructor. discriminate.
  - discriminate.
Defined.

(** After [resetChatSession] the next call builds a new session, whatever
    the files. *)
Lemma resetChatSession_forces_reseed userMessage files stream s :
  fst (streamGeminiResponse userMessage files stream (resetChatSession s))
  = {| chatSession := Some (new_chat files s);
       currentFileContextHash := generateFileHash files;
       chats_created := S (chats_created s) |}.
Proof. simpl. by rewrite ensure_session_create by (by left). Qed.

(** C7, as the spec words it, fails.  The two file sets have the same
    number of files and different names and sizes, and the same
    fingerprint [a.txt-1|b.txt-2|c.txt-3]: the second call reuses the
    session that the first one built for the other files. *)
Lemma session_reused_for_renamed_files :
  map file_key files_after <> map file_key files_before
  /\ generateFileHash files_before = "a.txt-1|b.txt-2|c.txt-3"
  /\ generateFileHash files_after = "a.txt-1|b.txt-2|c.txt-3"
  /\ chatSession (fst (streamGeminiResponse "q1" files_before stream_done
                         initial_session))
     = Some (new_chat files_before initial_session)
  /\ fst (streamGeminiResponse "q2" files_after stream_done
            (fst (streamGeminiResponse "q1" files_before stream_done
                    initial_session)))
     = fst (streamGeminiResponse "q1" files_before stream_done initial_session).
Proof.
  split; [discriminate|]. repeat split; vm_compute; reflexivity.
Qed.

(** ** System instruction *)

Lemma filter_none_processed files :
  existsb is_processed files = false -> List.filter is_processed files = [].
Proof.
  induction files as [|f files IH]; simpl; [done|].
  intros [Hf Hrest]%orb_false_iff. rewrite Hf. by apply IH.
Qed.

Lemma filter_some_processed files :
  existsb is_processed files = true ->
  (0 <? Z.of_nat (length (List.filter is_processed files))) = true.
Proof.
  induction files as [|f files IH]; [done|].
  cbn [existsb List.filter].
  destruct (is_processed f); [intros _; apply Z.ltb_lt|apply IH].
  rewrite length_cons. lia.
Qed.

(** C8, as the code has it.  The instruction is built from the summaries
    of the files that have processed data as soon as one file has; it is
    the generic instruction only when no file has. *)
Theorem getSystemInstruction_branches (files : list LocalFile) :
  getSystemInstruction files
  = if existsb is_processed files
    then summaries_instruction (List.filter is_processed files)
    else generic_instruction.
Proof.
  unfold getSystemInstruction.
  destruct (existsb is_processed files) eqn:He.
  - by rewrite filter_some_processed.
  - by rewrite filter_none_processed.
Qed.

(** C8, as the spec words it, fails.  With one ingested file and one that
    is not, not every file has completed ingestion, and the instruction is
    the one built from summaries, not the generic one.  With no file at
    all, every file has completed ingestion, and the instruction is the
    generic one. *)
Lemma getSystemInstruction_partly_processed :
  forallb is_processed [processed_file "a.txt" "About a."; named_file "b.txt" 7]
  = false
  /\ getSystemInstruction
       [processed_file "a.txt" "About a."; named_file "b.txt" 7]
     = summaries_instruction [processed_file "a.txt" "About a."]
  /\ getSystemInstruction
       [processed_file "a.txt" "About a."; named_file "b.txt" 7]
     <> generic_instruction
  /\ forallb is_processed [] = true
  /\ getSystemInstruction [] = generic_instruction
  /\ getSystemInstruction [] <> summaries_instruction [].
Proof.
  repeat split; try reflexivity; vm_compute; discriminate.
Qed.

(** ** Snapshot import *)

Lemma prop_member parsed key :
  truthy (Some parsed) = true -> prop parsed key = Ok (member parsed key).
Proof. by destruct parsed. Qed.

Lemma handleImportContext_rejected JSON_parse content0 st parsed :
  JSON_parse content0 = Ok parsed ->
  snapshot_accepted parsed = false ->
  handleImportContext JSON_parse content0 st
  = addLog error "Failed to load context file" (Some invalid_format) st.
Proof.
  intros Hparse Hacc. unfold handleImportContext. rewrite Hparse.
  unfold snapshot_accepted in Hacc. cbn [mbind Result_bind].
  destruct (truthy (Some parsed)) eqn:Ht; [|reflexivity].
  rewrite !prop_member by done. cbn [mbind Result_bind andb] in *.
  destruct (member parsed "files") as [[]|]; try reflexivity;
    destruct (member parsed "wiki") as [w|]; try reflexivity.
  cbn [Array_isArray andb] in Hacc. by rewrite Hacc.
Qed.

Lemma handleImportContext_accepted JSON_parse content0 st parsed :
  JSON_parse content0 = Ok parsed ->
  snapshot_accepted parsed = true ->
  exists items wiki,
    member parsed "files" = Some (JArr items)
    /\ member parsed "wiki" = Some wiki
    /\ handleImportContext JSON_parse content0 st
       = {| files := JArr items;
            wikiCache := wiki;
            riskData := imported_riskData parsed (riskData st);
            wikiPath := ["ROOT"];
            logs := logs st ++
                    [ {| level := success;
                         message := "Context loaded: "
                                    ++ pretty (Z.of_nat (length items))
                                    ++ " files restored.";
                         details := None |} ] |}.
Proof.
  intros Hparse Hacc. unfold handleImportContext. rewrite Hparse.
  unfold snapshot_accepted in Hacc. cbn [mbind Result_bind].
  destruct (truthy (Some parsed)) eqn:Ht; [|done].
  rewrite !prop_member by done. cbn [mbind Result_bind andb] in *.
  unfold imported_riskData.
  destruct (member parsed "files") as [[| | | |items|]|]; try done.
  destruct (member parsed "wiki") as [w|]; [|done].
  cbn [Array_isArray andb] in Hacc. rewrite Hacc. by exists items, w.
Qed.

(** C9, as the code has it.  When the text does not parse, or the parsed
    value fails the test (it is falsy, its [files] is not an array, or
    [typeof] its [wiki] is not ['object']), import only appends an error
    entry with the message to the log: documents, graph, risk register and
    navigation path are untouched.  When the value is truthy, its [files]
    is an array and its [wiki] is an object or an array, documents and
    graph are replaced by its [files] and [wiki], the path is reset to
    [ROOT], and the risk register is replaced by its [riskData] when that
    is truthy and kept otherwise.  (Nothing is said here of a [wiki] that
    is [null].) *)
Theorem handleImportContext_policy
    (JSON_parse : string -> Result JSON) (content0 : string) (st : AppState) :
  match JSON_parse content0 with
  | Throw m =>
      handleImportContext JSON_parse content0 st
      = addLog error "Failed to load context file" (Some m) st
      /\ untouched st (handleImportContext JSON_parse content0 st)
  | Ok parsed =>
      (snapshot_accepted parsed = false ->
       handleImportContext JSON_parse content0 st
       = addLog error "Failed to load context file" (Some invalid_format) st
       /\ untouched st (handleImportContext JSON_parse content0 st))
      /\ (truthy (Some parsed) = true ->
          Array_isArray (member parsed "files") = true ->
          is_object (member parsed "wiki") = true ->
          files (handleImportContext JSON_parse content0 st)
          = default JNull (member parsed "files")
          /\ wikiCache (handleImportContext JSON_parse content0 st)
             = default JNull (member parsed "wiki")
          /\ riskData (handleImportContext JSON_parse content0 st)
             = imported_riskData parsed (riskData st)
          /\ wikiPath (handleImportContext JSON_parse content0 st) = ["ROOT"])
  end.
Proof.
  destruct (JSON_parse content0) as [parsed|m] eqn:Hparse.
  - split.
    + intros Hacc.
      rewrite (handleImportContext_rejected JSON_parse content0 st parsed)
        by done. by repeat split.
    + intros Ht Hf Hw.
      assert (snapshot_accepted parsed = true) as Hacc.
      { unfold snapshot_accepted. rewrite Ht, Hf. simpl.
        by destruct (member parsed "wiki") as [[]|]. }
      destruct (handleImportContext_accepted JSON_parse content0 st parsed
                  Hparse Hacc) as (items & wiki & Hfiles & Hwiki & ->).
      rewrite Hfiles, Hwiki. by repeat split.
  - assert (handleImportContext JSON_parse content0 st
            = addLog error "Failed to load context file" (Some m) st) as ->
      by (unfold handleImportContext; by rewrite Hparse).
    by repeat split.
Qed.

(** A snapshot without [files] is rejected and changes nothing but the
    log. *)
Example import_rejects_missing_files :
  handleImportContext (parse_as "snapshot" snapshot_no_files) "snapshot"
    busy_state
  = addLog error "Failed to load context file" (Some invalid_format) busy_state.
Proof. reflexivity. Qed.

(** C9, as the spec words it, fails.  Importing the snapshot with
    [riskData: null] into a state with a risk register replaces documents
    and graph and keeps the old risk register: the import is applied in
    part. *)
Lemma import_keeps_old_risk_register :
  files (handleImportContext (parse_as "snapshot" snapshot_without_risks)
           "snapshot" busy_state) = JArr []
  /\ wikiCache (handleImportContext (parse_as "snapshot" snapshot_without_risks)
                  "snapshot" busy_state) = JObj []
  /\ riskData (handleImportContext (parse_as "snapshot" snapshot_without_risks)
                 "snapshot" busy_state) = riskData busy_state
  /\ riskData busy_state <> JNull
  /\ member snapshot_without_risks "riskData" = Some JNull.
Proof. repeat split; try reflexivity. discriminate. Qed.

(** The test of [handleImportContext] has no [!== null] beside its
    [typeof], which [handleImportWiki] has: a snapshot whose [wiki] is
    [null] passes it, and [null] becomes the graph. *)
Example import_null_wiki :
  is_object (member snapshot_null_wiki "wiki") = false
  /\ snapshot_accepted snapshot_null_wiki = true
  /\ wikiCache (handleImportContext (parse_as "snapshot" snapshot_null_wiki)
                  "snapshot" busy_state) = JNull.
Proof. by repeat split. Qed.

(** ** Knowledge graph store *)

Lemma single_parent_empty : single_parent ∅.
Proof. intros t p q (node & es & e & Hp & _). by rewrite lookup_empty in Hp. Qed.

(** *** Reading the store through its prototype *)

Lemma Get_own (prev : WikiCache) key v :
  prev !! key = Some v -> Get prev key = Some v.
Proof. intros H. unfold Get. by rewrite H. Qed.

Lemma Get_missing (prev : WikiCache) key :
  Get prev key = None <-> prev !! key = None /\ key ∉ Object_prototype.
Proof.
  unfold Get. destruct (prev !! key); [naive_solver|].
  case_bool_decide; naive_solver.
Qed.

Lemma Get_inherited (prev : WikiCache) key :
  prev !! key = None -> key ∈ Object_prototype ->
  Get prev key = Some (Inherited key).
Proof. intros H Hin. unfold Get. by rewrite H, bool_decide_eq_true_2. Qed.

Lemma Get_plain (prev : WikiCache) key :
  key ∉ Object_prototype -> Get prev key = prev !! key.
Proof.
  intros Hin. unfold Get. destruct (prev !! key); [done|].
  by rewrite bool_decide_eq_false_2.
Qed.

Lemma Get_insert_eq (prev : WikiCache) key v :
  Get (<[key := v]> prev) key = Some v.
Proof. apply Get_own, lookup_insert_eq. Qed.

Lemma Get_insert_ne (prev : WikiCache) key k v :
  k <> key -> Get (<[k := v]> prev) key = Get prev key.
Proof. intros Hne. unfold Get. by rewrite lookup_insert_ne. Qed.

(** A value whose [entries] are an array is a node of the store: no
    inherited value has an array there. *)
Lemma entry_list_own (prev : WikiCache) key v es :
  Get prev key = Some v -> entries_of v = entry_list es ->
  exists node, v = Node node /\ prev !! key = Some (Node node)
               /\ entries node = entry_list es.
Proof.
  unfold Get. intros Hget Hes.
  destruct (prev !! key) as [v'|] eqn:Hown.
  - injection Hget as ->. destruct v as [node|name]; [by exists node|].
    simpl in Hes. by destruct (String.eqb name "constructor").
  - case_bool_decide; [|done]. injection Hget as <-.
    simpl in Hes. by destruct (String.eqb key "constructor").
Qed.

Lemma entry_array_own (prev : WikiCache) key es :
  entry_array prev key = Some es <->
  exists node, prev !! key = Some (Node node) /\ entries node = entry_list es.
Proof.
  unfold entry_array. split.
  - destruct (Get prev key) as [v|] eqn:Hget; simpl; [|done].
    destruct (entries_of v) as [|es'|] eqn:Hes; try done.
    intros [= ->].
    destruct (entry_list_own prev key v es Hget Hes) as (node & _ & ? & ?).
    by exists node.
  - intros (node & Hown & Hes). rewrite (Get_own _ _ _ Hown). simpl.
    by rewrite Hes.
Qed.

(** *** Moves *)

(** A move into a parent that already lists the term leaves the store as
    it is. *)
Lemma handleWikiMoveNode_rejects_duplicate
    term0 definition0 newParent wikiPath (prev : WikiCache)
    oldNode oldEntries newNode newEntries :
  prev !! current_term wikiPath = Some (Node oldNode) ->
  entries oldNode = entry_list oldEntries ->
  prev !! newParent = Some (Node newNode) ->
  entries newNode = entry_list newEntries ->
  existsb (fun e => String.eqb (term e) term0) newEntries = true ->
  handleWikiMoveNode term0 definition0 newParent wikiPath prev = Ok prev.
Proof.
  intros Hold Hoe Hnew Hne Hdup. unfold handleWikiMoveNode.
  destruct (String.eqb _ _); [done|].
  rewrite (Get_own _ _ _ Hold), (Get_own _ _ _ Hnew). simpl.
  by rewrite Hoe, Hne, Hdup.
Qed.

Lemma lists_term_insert_ne (cache : WikiCache) k v p t :
  p <> k -> lists_term (<[k := v]> cache) p t <-> lists_term cache p t.
Proof.
  intros Hne. unfold lists_term. by setoid_rewrite lookup_insert_ne.
Qed.

Lemma lists_term_insert_eq (cache : WikiCache) k node t :
  lists_term (<[k := Node node]> cache) k t
  <-> exists es e, entries node = entry_list es /\ e ∈ es /\ term e = t.
Proof.
  unfold lists_term. setoid_rewrite lookup_insert_eq. naive_solver.
Qed.

(** What a move that goes through returns. *)
Lemma handleWikiMoveNode_Ok
    term0 definition0 newParent wikiPath (prev next : WikiCache) :
  current_term wikiPath <> newParent ->
  handleWikiMoveNode term0 definition0 newParent wikiPath prev = Ok next ->
  exists oldParentNode oldEntries newEntries,
    Get prev (current_term wikiPath) = Some oldParentNode
    /\ entries_of oldParentNode = entry_list oldEntries
    /\ entries_of (default (Node blank_node) (Get prev newParent))
       = entry_list newEntries
    /\ (if existsb (fun e => String.eqb (term e) term0) newEntries
        then next = prev
        else next
             = <[newParent :=
                   Node (with_entries
                           (spread (Some (default (Node blank_node)
                                            (Get prev newParent))))
                           (newEntries
                            ++ [ {| term := term0; definition := definition0;
                                    relatedContext :=
                                      "Moved from " ++ current_term wikiPath |} ]))]>
                 (<[current_term wikiPath :=
                      Node (with_entries (spread (Some oldParentNode))
                              (List.filter
                                 (fun e => negb (String.eqb (term e) term0))
                                 oldEntries))]> prev)).
Proof.
  intros Hne. unfold handleWikiMoveNode.
  rewrite (proj2 (String.eqb_neq _ _) Hne).
  destruct (Get prev (current_term wikiPath)) as [old|]; [|done].
  destruct (entries_of old) as [|oldEntries|] eqn:Hoe; try done.
  destruct (entries_of (default (Node blank_node) (Get prev newParent)))
    as [|newEntries|] eqn:Hnes; try done.
  intros Hnext. exists old, oldEntries, newEntries.
  repeat split; try done.
  destruct (existsb _ newEntries); by injection Hnext as <-.
Qed.

(** A move that goes through keeps the single-parent invariant, provided
    the moved term is listed nowhere but under the current node or the new
    parent. *)
Lemma handleWikiMoveNode_keeps_single_parent
    term0 definition0 newParent wikiPath (prev next : WikiCache) :
  single_parent prev ->
  (forall p, lists_term prev p term0 ->
             p = current_term wikiPath \/ p = newParent) ->
  handleWikiMoveNode term0 definition0 newParent wikiPath prev = Ok next ->
  single_parent next.
Proof.
  intros Hinv Honly Hmove.
  set (cur := current_term wikiPath) in *.
  destruct (decide (cur = newParent)) as [Heq|Hne].
  { unfold handleWikiMoveNode in Hmove. fold cur in Hmove.
    rewrite (proj2 (String.eqb_eq _ _) Heq) in Hmove. by injection Hmove as <-. }
  destruct (handleWikiMoveNode_Ok _ _ _ _ _ _ Hne Hmove)
    as (old & oldEntries & newEntries & Hold & Hoe & Hnes & Hnext).
  fold cur in Hold, Hnext.
  destruct (existsb _ newEntries) eqn:Hdup; [by subst|].
  assert (forall p t, lists_term next p t ->
    (t <> term0 /\ lists_term prev p t) \/ (t = term0 /\ p = newParent)) as Hchar.
  { intros p t Hl. rewrite Hnext in Hl.
    destruct (decide (p = newParent)) as [->|Hpn].
    - apply lists_term_insert_eq in Hl as (es & e & [= <-] & He & Ht).
      apply elem_of_app in He as [He|He].
      + destruct (decide (t = term0)) as [->|Htt]; [by right|]. left.
        split; [done|].
        destruct (Get prev newParent) as [v|] eqn:Hn; simpl in Hnes.
        * destruct (entry_list_own prev newParent v newEntries Hn Hnes)
            as (n & _ & Hown & Hes).
          by exists n, newEntries, e.
        * injection Hnes as <-. by apply elem_of_nil in He.
      + apply list_elem_of_singleton in He as ->. by right.
    - rewrite lists_term_insert_ne in Hl by done.
      destruct (decide (p = cur)) as [->|Hpc].
      + apply lists_term_insert_eq in Hl as (es & e & [= <-] & He & Ht).
        apply list_elem_of_In, filter_In in He as [He Hk].
        apply list_elem_of_In in He.
        left. split.
        * intros ->. subst. by rewrite String.eqb_refl in Hk.
        * destruct (entry_list_own prev cur old oldEntries Hold Hoe)
            as (n & _ & Hown & Hes).
          by exists n, oldEntries, e.
      + rewrite lists_term_insert_ne in Hl by done.
        destruct (decide (t = term0)) as [->|Htt]; [|by left].
        destruct (Honly p Hl); congruence. }
  intros t p q Hp Hq.
  apply Hchar in Hp as [[Ht Hp]|[Ht Hp]], Hq as [[Ht' Hq]|[Ht' Hq]];
    try congruence.
  by eapply Hinv.
Qed.

(** *** Additions *)

Lemma store_A_X_nodes : store_A_X = Ok nodes_A_X.
Proof. vm_compute. reflexivity. Qed.

Lemma lists_term_nodes_A_X p t : lists_term nodes_A_X p t -> p = "ROOT".
Proof.
  unfold nodes_A_X. intros (node & es & e & Hp & Hes & He & _).
  destruct (decide (p = "ROOT")) as [|Hroot]; [done|exfalso].
  rewrite lookup_insert in Hp. case_decide.
  { injection Hp as <-. injection Hes as <-. by apply elem_of_nil in He. }
  rewrite lookup_insert_ne in Hp by done.
  rewrite lookup_insert in Hp. case_decide.
  { injection Hp as <-. injection Hes as <-. by apply elem_of_nil in He. }
  by rewrite lookup_empty in Hp.
Qed.

(** C2. Starting from the empty store, which satisfies the invariant, [A]
    is added under [ROOT], then [X] under [ROOT], then [X] under [A].  The
    third call is not rejected: it changes the store, and afterwards [X] is
    listed under the two parents [ROOT] and [A]. *)
Theorem handleWikiAddManualEntry_second_parent :
  single_parent ∅
  /\ exists before after,
       store_A_X = Ok before
       /\ single_parent before
       /\ lists_term before "ROOT" "X"
       /\ handleWikiAddManualEntry "X" "def X" "A" before = Ok after
       /\ after <> before
       /\ lists_term after "ROOT" "X"
       /\ lists_term after "A" "X"
       /\ ~ single_parent after.
Proof.
  split; [apply single_parent_empty|].
  exists nodes_A_X.
  eexists (<["X" := _]> (<["A" := _]> nodes_A_X)).
  split; [apply store_A_X_nodes|].
  split.
  { intros t p q Hp%lists_term_nodes_A_X Hq%lists_term_nodes_A_X. congruence. }
  split.
  { eexists _, _, entry_X. split; [vm_compute; reflexivity|].
    split; [reflexivity|]. split; [|reflexivity]. set_solver. }
  split; [vm_compute; reflexivity|].
  match goal with |- ?after <> _ /\ _ =>
    assert (lists_term after "ROOT" "X") as Hroot;
    [|assert (lists_term after "A" "X") as HA]
  end.
  { eexists _, _, entry_X. split; [vm_compute; reflexivity|].
    split; [reflexivity|]. split; [|reflexivity]. set_solver. }
  { eexists _, _, entry_X. split; [vm_compute; reflexivity|].
    split; [reflexivity|]. split; [|reflexivity]. set_solver. }
  split.
  { intros Heq. apply (f_equal (fun m => m !! "A")) in Heq.
    vm_compute in Heq. discriminate. }
  split; [done|]. split; [done|].
  intros Hinv. by specialize (Hinv "X" "ROOT" "A" Hroot HA).
Qed.

(* ===================================================================== *)
(** * Part III. Further properties of the code                            *)
(* ===================================================================== *)

(** ** The chunker: shape of the pieces *)

(** X1. For a positive [chunkSize], no piece is longer than
    [chunkSize + 1]. *)
Theorem chunkText_piece_length (text : list ascii) (chunkSize : Z)
    (fuel : nat) (pieces : list (list ascii)) :
  0 < chunkSize ->
  chunkText fuel text chunkSize = Some pieces ->
  Forall (fun piece => len piece <= chunkSize + 1) pieces.
Proof. apply chunkText_piece_bound. Qed.

Lemma chunkText_piece_length_witness :
  Forall (fun piece => len piece <= 5 + 1)
         [list_ascii_of_string "abcde" ++ [newline]; list_ascii_of_string "fgh"].
Proof.
  apply (chunkText_piece_length sample_text 5 (length sample_text));
    [lia | reflexivity].
Defined.

(** A property of every piece the loop cuts holds of every piece it
    returns. *)
Lemma chunk_loop_Forall (P : list ascii -> Prop) text chunkSize :
  0 < chunkSize ->
  (forall i, 0 <= i < len text -> P (slice text i (cut_end text chunkSize i))) ->
  forall fuel i chunks pieces,
    0 <= i -> Forall P chunks ->
    chunk_loop fuel text chunkSize i chunks = Some pieces ->
    Forall P pieces.
Proof.
  intros Hc HP fuel. induction fuel as [|fuel IH]; intros i chunks pieces Hi Hall;
    simpl; destruct (Z.ltb_spec i (len text)) as [Hlt|Hge]; try congruence.
  intros Hrun.
  pose proof (cut_end_advances text chunkSize i Hc (conj Hi Hlt)).
  eapply IH; [| |exact Hrun]; [lia|].
  apply Forall_app. split; [done|]. constructor; [|done]. apply HP. lia.
Qed.

(** X2. For a positive [chunkSize] and a text that is not empty, no piece
    is empty. *)
Theorem chunkText_pieces_nonempty (text : list ascii) (chunkSize : Z)
    (fuel : nat) (pieces : list (list ascii)) :
  0 < chunkSize -> text <> [] ->
  chunkText fuel text chunkSize = Some pieces ->
  Forall (fun piece => piece <> []) pieces.
Proof.
  intros Hc Hne. unfold chunkText.
  destruct (Z.leb_spec (len text) chunkSize).
  - intros [= <-]. by constructor.
  - apply (chunk_loop_Forall (fun piece => piece <> [])); [done| |lia|done].
    intros i Hi Hempty.
    pose proof (cut_end_advances text chunkSize i Hc Hi).
    assert (len (slice text i (cut_end text chunkSize i)) = 0) as Hlen
      by (by rewrite Hempty).
    rewrite slice_length in Hlen; lia.
Qed.

Lemma chunkText_pieces_nonempty_witness :
  Forall (fun piece => piece <> [])
         [list_ascii_of_string "abcde" ++ [newline]; list_ascii_of_string "fgh"].
Proof.
  apply (chunkText_pieces_nonempty sample_text 5 (length sample_text));
    [lia | discriminate | reflexivity].
Defined.

(** A property of every piece cut before the end of the text is in sight
    holds of every piece but the last. *)
Lemma chunk_loop_all_but_last (P : list ascii -> Prop) text chunkSize :
  0 < chunkSize ->
  (forall i, 0 <= i -> i + chunkSize < len text ->
             P (slice text i (cut_end text chunkSize i))) ->
  forall fuel i chunks pieces,
    0 <= i ->
    (i < len text -> Forall P chunks) ->
    Forall P (removelast chunks) ->
    chunk_loop fuel text chunkSize i chunks = Some pieces ->
    Forall P (removelast pieces).
Proof.
  intros Hc HP fuel. induction fuel as [|fuel IH];
    intros i chunks pieces Hi Hall Hinit;
    simpl; destruct (Z.ltb_spec i (len text)) as [Hlt|Hge]; try congruence.
  intros Hrun.
  pose proof (cut_end_advances text chunkSize i Hc (conj Hi Hlt)) as Hadv.
  eapply IH; [| | |exact Hrun]; [lia| |].
  - intros He. apply Forall_app. split; [auto|]. constructor; [|done].
    apply HP; [done|].
    unfold cut_end in He.
    destruct (Z.ltb_spec (Z.min (i + chunkSize) (len text)) (len text)); lia.
  - rewrite removelast_last. auto.
Qed.

Lemma chunkText_all_but_last (P : list ascii -> Prop) text chunkSize fuel pieces :
  0 < chunkSize ->
  (forall i, 0 <= i -> i + chunkSize < len text ->
             P (slice text i (cut_end text chunkSize i))) ->
  chunkText fuel text chunkSize = Some pieces ->
  Forall P (removelast pieces).
Proof.
  intros Hc HP. unfold chunkText.
  destruct (Z.leb_spec (len text) chunkSize).
  - intros [= <-]. constructor.
  - apply (chunk_loop_all_but_last P); [done|done|lia|constructor|constructor].
Qed.

(** X3. For a positive [chunkSize], every piece but the last is longer
    than 80% of [chunkSize]: a break before the floor is never taken. *)
Theorem chunkText_floor (text : list ascii) (chunkSize : Z) (fuel : nat)
    (pieces : list (list ascii)) :
  0 < chunkSize ->
  chunkText fuel text chunkSize = Some pieces ->
  Forall (fun piece => 4 * chunkSize < 5 * len piece) (removelast pieces).
Proof.
  intros Hc. apply chunkText_all_but_last; [done|].
  intros i Hi Hlen.
  pose proof (cut_end_advances text chunkSize i Hc) as Hadv.
  rewrite slice_length by lia.
  unfold cut_end, past_floor.
  rewrite Z.min_l by lia.
  destruct (Z.ltb_spec (i + chunkSize) (len text)); [|lia].
  case_ltb; lia.
Qed.

Lemma chunkText_floor_witness :
  Forall (fun piece => 4 * 5 < 5 * len piece)
         (removelast [list_ascii_of_string "abcde" ++ [newline];
                      list_ascii_of_string "fgh"]).
Proof.
  apply (chunkText_floor sample_text 5 (length sample_text));
    [lia | reflexivity].
Defined.

Lemma scan_back_found text c n :
  0 <= scan_back text c n ->
  text !! Z.to_nat (scan_back text c n) = Some c.
Proof.
  induction n as [|k IH]; simpl; [lia|].
  case_bool_decide as Hk; [by rewrite Nat2Z.id|done].
Qed.

Lemma slice_last text a b :
  0 <= a < b -> b <= len text ->
  last (slice text a b) = text !! Z.to_nat (b - 1).
Proof.
  intros Ha Hb. rewrite last_lookup.
  assert (len (slice text a b) = b - a) as Hlen by (apply slice_length; lia).
  unfold len in Hlen at 1.
  replace (length (slice text a b)) with (Z.to_nat (b - a)) by lia.
  rewrite slice_inside by lia.
  rewrite lookup_take_lt, lookup_drop by lia. f_equal. lia.
Qed.

(** X4. For a positive [chunkSize], every piece but the last either has
    exactly [chunkSize] characters (the hard cut) or ends with the line
    feed or the full stop it was broken at. *)
Theorem chunkText_break_character (text : list ascii) (chunkSize : Z)
    (fuel : nat) (pieces : list (list ascii)) :
  0 < chunkSize ->
  chunkText fuel text chunkSize = Some pieces ->
  Forall (fun piece => len piece = chunkSize
                       \/ last piece = Some newline
                       \/ last piece = Some period)
         (removelast pieces).
Proof.
  intros Hc. apply chunkText_all_but_last; [done|].
  intros i Hi Hlen.
  pose proof (cut_end_advances text chunkSize i Hc) as Hadv.
  rewrite slice_length, slice_last by lia.
  unfold cut_end, past_floor, lastIndexOf.
  rewrite Z.min_l by lia.
  destruct (Z.ltb_spec (i + chunkSize) (len text)); [|lia].
  set (n := Z.to_nat (Z.min (Z.max (i + chunkSize) 0) (len text - 1) + 1)).
  destruct (Z.ltb_spec (4 * chunkSize) (5 * (scan_back text newline n - i))).
  { right. left. rewrite Z.add_simpl_r. apply scan_back_found. lia. }
  destruct (Z.ltb_spec (4 * chunkSize) (5 * (scan_back text period n - i))).
  { right. right. rewrite Z.add_simpl_r. apply scan_back_found. lia. }
  left. lia.
Qed.

Lemma chunkText_break_character_witness :
  Forall (fun piece => len piece = 5
                       \/ last piece = Some newline
                       \/ last piece = Some period)
         (removelast [list_ascii_of_string "abcde" ++ [newline];
                      list_ascii_of_string "fgh"]).
Proof.
  apply (chunkText_break_character sample_text 5 (length sample_text));
    [lia | reflexivity].
Defined.

(** ** Ingestion: failures and bounds *)

Lemma processChunk_soft_failure generateContent JSON_parse call text isPDF fileName :
  (forall c parts, soft_failure generateContent JSON_parse c parts) ->
  processChunk generateContent JSON_parse call text isPDF fileName
  = empty_structure.
Proof.
  intros Hsoft. unfold processChunk.
  match goal with
  | |- context [generateContent call ?parts] =>
      specialize (Hsoft call parts); unfold soft_failure in Hsoft;
      destruct (generateContent call parts) as [response|m]
  end; [|done].
  simpl. destruct (response_text response) as [t|]; [|done].
  destruct Hsoft as [-> | [m Hm]]; [done|].
  destruct t as [|a t]; [done|]. by rewrite Hm.
Qed.

Lemma process_chunks_soft_failure generateContent JSON_parse chunks fileName :
  (forall c parts, soft_failure generateContent JSON_parse c parts) ->
  forall call,
    process_chunks generateContent JSON_parse call chunks fileName
    = replicate (length chunks) empty_structure.
Proof.
  intros Hsoft. induction chunks as [|c chunks IH]; intros call; simpl; [done|].
  by rewrite IH, processChunk_soft_failure.
Qed.

(** X5. When every extraction call fails softly (the call throws, the answer
    has no text, or the text does not parse), ingestion returns the record
    with an empty summary and empty collections, on the single-call path
    and on the chunked path alike. *)
Theorem processDocumentIngestion_fail_soft
    (generateContent : nat -> list Part -> Result Response)
    (JSON_parse : string -> Result JSON) (file : LocalFile) :
  (forall call parts, soft_failure generateContent JSON_parse call parts) ->
  processDocumentIngestion generateContent JSON_parse file
  = Some empty_structure.
Proof.
  intros Hsoft. unfold processDocumentIngestion.
  destruct (_ || _); [simpl; by rewrite processChunk_soft_failure|].
  destruct (chunkText_returns (list_ascii_of_string (file_content file))
              default_chunkSize) as (pieces & -> & _); [done|].
  simpl. by rewrite process_chunks_soft_failure, aggregate_empties.
Qed.

Lemma processDocumentIngestion_fail_soft_witness :
  processDocumentIngestion (reply_with "not json") (parse_as "{}" (JObj []))
                           long_file
  = Some empty_structure.
Proof.
  apply (processDocumentIngestion_fail_soft (reply_with "not json")
           (parse_as "{}" (JObj [])) long_file).
  intros call parts. right. by exists "SyntaxError".
Defined.

(** X6. On the chunked path (a document that is no PDF and has 60000
    characters or more) the returned record has all five fields, whatever
    the model answered. *)
Theorem processDocumentIngestion_chunked_record
    (generateContent : nat -> list Part -> Result Response)
    (JSON_parse : string -> Result JSON) (file : LocalFile) (v : JSON) :
  String.eqb (file_type file) "application/pdf" = false ->
  60000 <= Z.of_nat (String.length (file_content file)) ->
  processDocumentIngestion generateContent JSON_parse file = Some v ->
  structurally_complete v = true.
Proof. apply processDocumentIngestion_chunked_complete. Qed.

Lemma processDocumentIngestion_chunked_record_witness :
  structurally_complete (JObj [("summary", JStr ""); ("topics", JArr []);
                               ("risks", JArr []); ("keyPoints", JArr []);
                               ("entities", JArr [])]) = true.
Proof.
  apply (processDocumentIngestion_chunked_record (reply_with "{}")
           (parse_as "{}" (JObj [])) long_file).
  - reflexivity.
  - vm_compute. discriminate.
  - vm_compute. reflexivity.
Defined.

Lemma map_summary_null results :
  JNull ∈ results -> exists m, map_summary results = Throw m.
Proof.
  induction results as [|r results IH]; [by intros ?%elem_of_nil|].
  intros [<-|Hin]%elem_of_cons; simpl; [by eexists|].
  destruct (prop r "summary"); simpl; [|by eexists].
  destruct (IH Hin) as [m ->]. by eexists.
Qed.

(** X7. On the chunked path one chunk whose answer parses to [null]
    discards the results of all chunks: reading [r.summary] of it throws
    inside the aggregation, and ingestion returns the "Analysis failed."
    placeholder. *)
Theorem processDocumentIngestion_null_chunk
    (generateContent : nat -> list Part -> Result Response)
    (JSON_parse : string -> Result JSON) (file : LocalFile)
    (chunks : list (list ascii)) :
  String.eqb (file_type file) "application/pdf" = false ->
  60000 <= Z.of_nat (String.length (file_content file)) ->
  chunkText (length (list_ascii_of_string (file_content file)))
            (list_ascii_of_string (file_content file)) default_chunkSize
  = Some chunks ->
  JNull ∈ process_chunks generateContent JSON_parse 0 chunks (file_name file) ->
  processDocumentIngestion generateContent JSON_parse file
  = Some analysis_failed.
Proof.
  intros Hpdf Hlen Hchunks Hnull. unfold processDocumentIngestion.
  rewrite Hpdf.
  destruct (Z.ltb_spec (Z.of_nat (String.length (file_content file))) 60000);
    [lia|].
  cbn [orb]. rewrite Hchunks. simpl. unfold aggregate.
  by destruct (map_summary_null _ Hnull) as [m ->].
Qed.

Lemma processDocumentIngestion_null_chunk_witness :
  processDocumentIngestion two_replies
    (fun s => if String.eqb s "AB" then Ok (ProcessedData_json chunk_AB)
              else Ok JNull)
    long_file
  = Some analysis_failed.
Proof.
  apply (processDocumentIngestion_null_chunk two_replies
           (fun s => if String.eqb s "AB" then Ok (ProcessedData_json chunk_AB)
                     else Ok JNull)
           long_file
           [replicate (Z.to_nat 50000) "a"%char ++ [newline];
            replicate (Z.to_nat 10000) "b"%char]).
  - reflexivity.
  - vm_compute. discriminate.
  - refine (bool_decide_eq_true_1 _ _). vm_compute. reflexivity.
  - apply list_elem_of_In. right. left. vm_compute. reflexivity.
Defined.

Lemma string_length_app (s1 s2 : string) :
  String.length (s1 ++ s2) = (String.length s1 + String.length s2)%nat.
Proof. induction s1 as [|a s1 IH]; simpl; [done|]. by rewrite IH. Qed.

Lemma substring_0_length n : forall s,
  String.length (substring 0 n s) = Nat.min n (String.length s).
Proof.
  induction n as [|n IH]; intros [|a s]; simpl; try done. by rewrite IH.
Qed.

Lemma cap_summary_length s :
  (String.length (cap_summary s) <= 2039)%nat.
Proof.
  unfold cap_summary.
  destruct (Z.ltb_spec 2000 (Z.of_nat (String.length s))); [|lia].
  rewrite string_length_app, substring_0_length.
  change (String.length synthesis_marker) with 39%nat. lia.
Qed.

(** X8. The summary of every aggregated record has at most 2039
    characters: 2000 of the joined chunk summaries and the 39 of the
    marker. *)
Theorem aggregate_summary_capped (results : list JSON) (v : JSON) :
  aggregate results = Ok v ->
  exists s, member v "summary" = Some (JStr s)
            /\ (String.length s <= 2039)%nat.
Proof.
  unfold aggregate. intros H.
  destruct (map_summary results); simpl in H; [|done].
  destruct (flatMap_key "topics" results); simpl in H; [|done].
  destruct (flatMap_key "risks" results); simpl in H; [|done].
  destruct (flatMap_key "keyPoints" results); simpl in H; [|done].
  destruct (flatMap_key "entities" results); simpl in H; [|done].
  injection H as <-. eexists. split; [reflexivity|]. apply cap_summary_length.
Qed.

Lemma aggregate_summary_capped_witness :
  exists s, member (ProcessedData_json (merge_spec [chunk_AB; chunk_BC]))
                   "summary" = Some (JStr s)
            /\ (String.length s <= 2039)%nat.
Proof.
  apply (aggregate_summary_capped
           (map ProcessedData_json [chunk_AB; chunk_BC])).
  reflexivity.
Defined.

(** ** Session manager: fingerprint and seed *)

(** X9. For file sets whose names do not contain [|] and whose sizes are
    not negative, two sets have the same fingerprint exactly when they have
    the same names and sizes, file by file and in the same order; the
    content of the files plays no part. *)
Theorem generateFileHash_plain_iff (files files' : list LocalFile) :
  plain_files files -> plain_files files' ->
  (generateFileHash files = generateFileHash files'
   <-> map file_key files = map file_key files').
Proof.
  intros Hp Hp'. split.
  - by apply generateFileHash_inj.
  - apply generateFileHash_keys.
Qed.

Lemma generateFileHash_plain_iff_witness :
  generateFileHash [named_file "a.txt" 1; named_file "b.txt" 2]
  = generateFileHash [text_file "a.txt" "x"; named_file "b.txt" 2]
  <-> map file_key [named_file "a.txt" 1; named_file "b.txt" 2]
      = map file_key [text_file "a.txt" "x"; named_file "b.txt" 2].
Proof.
  apply (generateFileHash_plain_iff
           [named_file "a.txt" 1; named_file "b.txt" 2]
           [text_file "a.txt" "x"; named_file "b.txt" 2]).
  - repeat constructor; discriminate.
  - repeat constructor; discriminate.
Defined.

Lemma files_parts_length files : forall index,
  length (files_parts index files)
  = (length files
     + length (List.filter
                 (fun f => String.eqb (file_type f) "application/pdf") files))%nat.
Proof.
  induction files as [|f files IH]; intros index; [done|].
  cbn [files_parts List.filter]. rewrite length_app, IH. unfold file_parts.
  destruct (String.eqb (file_type f) "application/pdf"); simpl; lia.
Qed.

(** X10. The history of a new session is empty when there are no files.
    Otherwise it has two turns: the user turn with the file parts, then
    the model's acknowledgement; the parts are one introduction, one
    header-and-content part per file, and one more part per PDF. *)
Theorem seed_history_shape (files : list LocalFile) :
  match files with
  | [] => seed_history files = []
  | _ :: _ =>
      seed_history files
      = [ {| role := user; parts := getFileParts files |};
          {| role := model;
             parts := [TextPart "I have received the documents and their context."] |} ]
      /\ length (getFileParts files)
         = (1 + length files
            + length (List.filter
                        (fun f => String.eqb (file_type f) "application/pdf")
                        files))%nat
  end.
Proof.
  destruct files as [|f files]; [done|].
  assert (length (getFileParts (f :: files))
          = (1 + length (f :: files)
             + length (List.filter
                         (fun f => String.eqb (file_type f) "application/pdf")
                         (f :: files)))%nat) as Hlen.
  { unfold getFileParts. rewrite length_cons, files_parts_length. lia. }
  split; [|done]. unfold seed_history.
  destruct (Z.ltb_spec 0 (Z.of_nat (length (getFileParts (f :: files)))));
    [done|lia].
Qed.

(** ** Knowledge graph store: navigation and mutation *)

Lemma wiki_step_path op w w' :
  wiki_step op w = Ok w' ->
  wiki_path w' = wiki_path w
  \/ (exists t, wiki_path w' = wiki_path w ++ [t])
  \/ (1 < Z.of_nat (length (wiki_path w)) /\ wiki_path w' = removelast (wiki_path w))
  \/ wiki_path w' = ["ROOT"].
Proof.
  destruct op; simpl; try (intros [= <-]; auto).
  - destruct (handleWikiAddManualEntry _ _ _ _); simpl; [|done].
    intros [= <-]. auto.
  - destruct (handleWikiMoveNode _ _ _ _ _); simpl; [|done]. intros [= <-]. auto.
  - right. left. by eexists.
  - simpl. destruct (Z.ltb_spec 1 (Z.of_nat (length (wiki_path w)))); auto.
Qed.

(** X11. Whatever handlers of the graph are used, in whatever order, the
    navigation path that started at [ROOT] is never empty and still starts
    at [ROOT]. *)
Theorem wiki_path_rooted (ops : list WikiOp) (w w' : Wiki) :
  (exists rest, wiki_path w = "ROOT" :: rest) ->
  wiki_run ops w = Ok w' ->
  exists rest', wiki_path w' = "ROOT" :: rest'.
Proof.
  revert w. induction ops as [|op ops IH]; intros w Hroot; simpl.
  - by intros [= <-].
  - destruct (wiki_step op w) as [w1|m] eqn:Hstep; simpl; [|done].
    apply IH. destruct Hroot as [rest Hrest].
    destruct (wiki_step_path op w w1 Hstep) as [Hp|[[t Hp]|[[Hlen Hp]|Hp]]];
      rewrite Hp, ?Hrest.
    + by exists rest.
    + by exists (rest ++ [t]).
    + rewrite Hrest in Hlen. destruct rest as [|r rest]; [simpl in Hlen; lia|].
      by exists (removelast (r :: rest)).
    + by exists [].
Qed.

Lemma wiki_path_rooted_witness :
  exists rest', wiki_path {| wiki_cache := <["A" := Node blank_node]> ∅;
                             wiki_path := ["ROOT"] |} = "ROOT" :: rest'.
Proof.
  apply (wiki_path_rooted [DrilledDown "A"; WentBack; WentBack] initial_wiki).
  - by exists [].
  - reflexivity.
Defined.

(** X12. Drilling into a term makes it the current node and makes sure that
    the store finds something under it.  A term that the store has, or
    that it inherits from its prototype, leaves the store as it is, so an
    inherited name gets no node; any other term gets a blank node.  No
    other property changes.  Going back afterwards restores the path, while
    a node created on the way stays. *)
Theorem drill_down_then_back (term0 : string) (w : Wiki) :
  wiki_path w <> [] ->
  current_term (wiki_path (handleWikiDrillDown term0 w)) = term0
  /\ is_Some (Get (wiki_cache (handleWikiDrillDown term0 w)) term0)
  /\ (is_Some (Get (wiki_cache w) term0) ->
      wiki_cache (handleWikiDrillDown term0 w) = wiki_cache w)
  /\ (only_inherited (wiki_cache w) term0 ->
      wiki_cache (handleWikiDrillDown term0 w) !! term0 = None)
  /\ (Get (wiki_cache w) term0 = None ->
      wiki_cache (handleWikiDrillDown term0 w) !! term0
      = Some (Node blank_node))
  /\ (forall k, k <> term0 ->
        wiki_cache (handleWikiDrillDown term0 w) !! k = wiki_cache w !! k)
  /\ wiki_path (handleWikiBack (handleWikiDrillDown term0 w)) = wiki_path w
  /\ wiki_cache (handleWikiBack (handleWikiDrillDown term0 w))
     = wiki_cache (handleWikiDrillDown term0 w).
Proof.
  intros Hne. unfold handleWikiDrillDown, handleWikiBack, current_term. simpl.
  split; [apply last_last|].
  split.
  { case_bool_decide as Hk; [done|]. by rewrite Get_insert_eq. }
  split.
  { intros Hsome. by rewrite bool_decide_eq_true_2. }
  split.
  { intros [Hnone Hin].
    by rewrite bool_decide_eq_true_2 by (by rewrite Get_inherited). }
  split.
  { intros Hnone. rewrite bool_decide_eq_false_2 by (rewrite Hnone; by intros [??]).
    by rewrite lookup_insert_eq. }
  split.
  { intros k Hk. case_bool_decide; [done|]. by rewrite lookup_insert_ne. }
  split; [|done].
  rewrite length_app, removelast_last. simpl.
  destruct (wiki_path w); [done|].
  destruct (Z.ltb_spec 1 (Z.of_nat (length (s :: l) + 1))); [done|].
  rewrite length_cons in *. lia.
Qed.

Lemma drill_down_then_back_witness :
  current_term (wiki_path (handleWikiDrillDown "constructor" initial_wiki))
  = "constructor"
  /\ wiki_cache (handleWikiDrillDown "constructor" initial_wiki) !! "constructor"
     = None
  /\ wiki_cache (handleWikiDrillDown "A" initial_wiki) !! "A"
     = Some (Node blank_node)
  /\ wiki_path (handleWikiBack (handleWikiDrillDown "A" initial_wiki))
     = wiki_path initial_wiki.
Proof.
  pose proof (drill_down_then_back "constructor" initial_wiki) as Hc.
  pose proof (drill_down_then_back "A" initial_wiki) as HA.
  destruct Hc as (Hcur & _ & _ & Hnone & _); [discriminate|].
  destruct HA as (_ & _ & _ & _ & Hblank & _ & Hback & _); [discriminate|].
  split; [exact Hcur|]. split.
  { apply Hnone. split; [reflexivity|]. unfold Object_prototype. set_solver. }
  split; [|exact Hback].
  apply Hblank. reflexivity.
Defined.

Lemma wiki_step_keeps_nodes op w w' k :
  wiki_step op w = Ok w' ->
  is_Some (wiki_cache w !! k) -> is_Some (wiki_cache w' !! k).
Proof.
  intros Hstep Hk.
  assert (forall t v, is_Some (<[t := v]> (wiki_cache w) !! k)) as Hins.
  { intros t v. rewrite lookup_insert. by case_decide. }
  destruct op; simpl in Hstep.
  - injection Hstep as <-. apply Hins.
  - injection Hstep as <-. apply Hins.
  - injection Hstep as <-. apply Hins.
  - injection Hstep as <-. apply Hins.
  - unfold handleWikiAddManualEntry in Hstep.
    destruct (or_empty _); simpl in Hstep; try done.
    injection Hstep as <-. simpl.
    rewrite lookup_insert. case_decide; [done|]. apply Hins.
  - destruct (decide (current_term (wiki_path w) = newParent)) as [Heq|Hne].
    { unfold handleWikiMoveNode in Hstep.
      rewrite (proj2 (String.eqb_eq _ _) Heq) in Hstep. by injection Hstep as <-. }
    destruct (handleWikiMoveNode term0 definition0 newParent (wiki_path w)
                (wiki_cache w)) as [next|] eqn:Hmove; simpl in Hstep; [|done].
    injection Hstep as <-. simpl.
    destruct (handleWikiMoveNode_Ok _ _ _ _ _ _ Hne Hmove)
      as (old & oes & nes & _ & _ & _ & Hnext).
    destruct (existsb _ nes); subst next; [done|].
    rewrite lookup_insert. case_decide; [done|]. apply Hins.
  - injection Hstep as <-. simpl. case_bool_decide; [done|]. apply Hins.
  - by injection Hstep as <-.
  - by injection Hstep as <-.
Qed.

(** X13. No handler of the graph ever removes a property of the store:
    what is in the store stays in the store through any sequence of
    handlers. *)
Theorem wiki_run_keeps_nodes (ops : list WikiOp) (w w' : Wiki) (k : string) :
  wiki_run ops w = Ok w' ->
  is_Some (wiki_cache w !! k) -> is_Some (wiki_cache w' !! k).
Proof.
  revert w. induction ops as [|op ops IH]; intros w; simpl.
  - by intros [= <-].
  - destruct (wiki_step op w) as [w1|m] eqn:Hstep; simpl; [|done].
    intros Hrun Hk. apply (IH w1 Hrun). by eapply wiki_step_keeps_nodes.
Qed.

Lemma wiki_run_keeps_nodes_witness :
  exists w',
    wiki_run [WentHome; ManualEntryAdded "X" "def X" "A"; FileRemoved "f1"]
      (handleWikiDrillDown "A" initial_wiki) = Ok w'
    /\ is_Some (wiki_cache w' !! "A").
Proof.
  eexists. split; [vm_compute; reflexivity|].
  eapply (wiki_run_keeps_nodes
            [WentHome; ManualEntryAdded "X" "def X" "A"; FileRemoved "f1"]
            (handleWikiDrillDown "A" initial_wiki) _ "A").
  - vm_compute. reflexivity.
  - vm_compute. eauto.
Defined.

Lemma handleWikiMoveNode_throw_cases
    (term0 definition0 newParent : string) (wikiPath0 : list string)
    (prev : WikiCache) :
  current_term wikiPath0 <> newParent ->
  ((exists m, handleWikiMoveNode term0 definition0 newParent wikiPath0 prev
              = Throw m)
   <-> (entry_array prev (current_term wikiPath0) = None
        \/ (is_Some (Get prev newParent)
            /\ entry_array prev newParent = None))).
Proof.
  intros Hne. unfold handleWikiMoveNode, entry_array.
  apply String.eqb_neq in Hne. rewrite Hne.
  destruct (Get prev (current_term wikiPath0)) as [old|]; simpl;
    [|split; [by left|by eexists]].
  destruct (entries_of old) as [|oes|]; simpl;
    try (split; [by left|by eexists]).
  destruct (Get prev newParent) as [new|]; simpl.
  - destruct (entries_of new) as [|nes|] eqn:Hnes;
      try (split; [intros _; right; by eauto|by eexists]).
    destruct (existsb _ nes); split; try (by intros [m ?]);
      intros [?|[_ ?]]; congruence.
  - split; [by intros [m ?]|]. intros [?|[[? ?] _]]; congruence.
Qed.

(** X14. A move to another parent throws exactly when the current node is
    not found or its [entries] are no array, or the new parent is found,
    in the store or on its prototype, and its [entries] are no array.  So a
    move to an inherited name that has no node throws. *)
Theorem handleWikiMoveNode_throws_iff
    (term0 definition0 newParent : string) (wikiPath0 : list string)
    (prev : WikiCache) :
  current_term wikiPath0 <> newParent ->
  ((exists m, handleWikiMoveNode term0 definition0 newParent wikiPath0 prev
              = Throw m)
   <-> (entry_array prev (current_term wikiPath0) = None
        \/ (is_Some (Get prev newParent)
            /\ entry_array prev newParent = None)))
  /\ (only_inherited prev newParent ->
      exists m, handleWikiMoveNode term0 definition0 newParent wikiPath0 prev
                = Throw m).
Proof.
  intros Hne. split; [by apply handleWikiMoveNode_throw_cases|].
  intros [Hnone Hin]. apply handleWikiMoveNode_throw_cases; [done|]. right.
  unfold entry_array. rewrite (Get_inherited _ _ Hnone Hin). simpl.
  split; [by eexists|]. by destruct (String.eqb newParent "constructor").
Qed.

Lemma handleWikiMoveNode_throws_iff_witness :
  exists m, handleWikiMoveNode "X" "def X" "constructor" ["ROOT"] nodes_A_X
            = Throw m.
Proof.
  refine (proj2 (handleWikiMoveNode_throws_iff "X" "def X" "constructor"
                   ["ROOT"] nodes_A_X _) _).
  - discriminate.
  - split; [reflexivity|]. unfold Object_prototype. set_solver.
Defined.

Lemma all_have_entries_insert (cache : WikiCache) t node es :
  all_have_entries cache -> entries node = entry_list es ->
  all_have_entries (<[t := Node node]> cache).
Proof.
  intros Hall Hnode k v. rewrite lookup_insert.
  case_decide; [intros [= <-]; by exists node, es|]. apply Hall.
Qed.

Lemma entries_or_empty_array (prev : WikiCache) t :
  all_have_entries prev -> ~ only_inherited prev t ->
  exists es, entries_or_empty prev t = entry_list es.
Proof.
  intros Hall Hown. unfold entries_or_empty, Get.
  destruct (prev !! t) as [v|] eqn:Hv.
  - destruct (Hall t v Hv) as (node & es & -> & Hes). simpl. rewrite Hes.
    by exists es.
  - case_bool_decide as Hin; [by destruct Hown|]. by exists [].
Qed.

Lemma default_Get_array (prev : WikiCache) t node es :
  all_have_entries prev -> ~ only_inherited prev t ->
  entries node = entry_list es ->
  exists node' es',
    default (Node node) (Get prev t) = Node node'
    /\ entries node' = entry_list es'.
Proof.
  intros Hall Hown Hnode. unfold Get.
  destruct (prev !! t) as [v|] eqn:Hv.
  - destruct (Hall t v Hv) as (node' & es' & -> & Hes). by exists node', es'.
  - case_bool_decide as Hin; [by destruct Hown|]. by exists node, es.
Qed.

(** X15. Every handler of the graph keeps the property that every property
    of the store is a node with an array of entries, under two conditions:
    [handleWikiRemoveFile] is used at a node that is in the store, and a
    handler that stores again what it read under a name is not used at a
    name that the store only inherits. *)
Theorem wiki_step_keeps_entries (op : WikiOp) (w w' : Wiki) :
  all_have_entries (wiki_cache w) ->
  (forall fileId, op = FileRemoved fileId ->
                  is_Some (wiki_cache w !! current_term (wiki_path w))) ->
  (forall t, rewritten_name op = Some t -> ~ only_inherited (wiki_cache w) t) ->
  wiki_step op w = Ok w' ->
  all_have_entries (wiki_cache w').
Proof.
  intros Hall Hrem Hname Hstep. destruct op; simpl in Hstep.
  - injection Hstep as <-. by eapply all_have_entries_insert.
  - injection Hstep as <-.
    destruct (entries_or_empty_array (wiki_cache w) currentTerm Hall)
      as [es Hes]; [by apply Hname|].
    by eapply all_have_entries_insert.
  - injection Hstep as <-.
    destruct (entries_or_empty_array (wiki_cache w) currentTerm Hall)
      as [es Hes]; [by apply Hname|].
    by eapply all_have_entries_insert.
  - injection Hstep as <-.
    destruct (Hrem fileId eq_refl) as [v Hv].
    destruct (Hall _ v Hv) as (node & es & -> & Hes).
    eapply all_have_entries_insert; [done|]. simpl.
    rewrite (Get_own _ _ _ Hv). simpl. exact Hes.
  - unfold handleWikiAddManualEntry in Hstep.
    destruct (or_empty _) as [|es|]; simpl in Hstep; try done.
    injection Hstep as <-. simpl.
    destruct (default_Get_array (wiki_cache w) term0
                {| entries := entry_list []; content := Some definition0;
                   node_files := Some [] |} [] Hall)
      as (node' & es' & -> & Hes'); [by apply Hname|done|].
    eapply all_have_entries_insert; [|exact Hes'].
    by eapply all_have_entries_insert.
  - destruct (decide (current_term (wiki_path w) = newParent)) as [Heq|Hne].
    { unfold handleWikiMoveNode in Hstep.
      rewrite (proj2 (String.eqb_eq _ _) Heq) in Hstep. by injection Hstep as <-. }
    destruct (handleWikiMoveNode term0 definition0 newParent (wiki_path w)
                (wiki_cache w)) as [next|] eqn:Hmove; simpl in Hstep; [|done].
    injection Hstep as <-. simpl.
    destruct (handleWikiMoveNode_Ok _ _ _ _ _ _ Hne Hmove)
      as (old & oes & nes & _ & _ & _ & Hnext).
    destruct (existsb _ nes); subst next; [done|].
    eapply all_have_entries_insert; [|done].
    by eapply all_have_entries_insert.
  - injection Hstep as <-. simpl. case_bool_decide; [done|].
    by eapply all_have_entries_insert.
  - by injection Hstep as <-.
  - by injection Hstep as <-.
Qed.

Lemma wiki_step_keeps_entries_witness :
  exists w',
    wiki_step (ManualEntryAdded "X" "def X" "A")
      (handleWikiDrillDown "A" initial_wiki) = Ok w'
    /\ all_have_entries (wiki_cache w').
Proof.
  eexists. split; [vm_compute; reflexivity|].
  eapply (wiki_step_keeps_entries (ManualEntryAdded "X" "def X" "A")
            (handleWikiDrillDown "A" initial_wiki)).
  - change (wiki_cache (handleWikiDrillDown "A" initial_wiki))
      with (<["A" := Node blank_node]> (∅ : WikiCache)).
    eapply all_have_entries_insert; [|reflexivity].
    intros k v. by rewrite lookup_empty.
  - discriminate.
  - intros t [= <-] [_ Hin]. unfold Object_prototype in Hin. set_solver.
  - vm_compute. reflexivity.
Defined.

(** An inherited name breaks it: adding the concept [toString] makes the
    function that the store inherits under that name a property of the
    store. *)
Example handleWikiAddManualEntry_inherited_term :
  handleWikiAddManualEntry "toString" "d" "ROOT" empty_store
  = Ok (<["toString" := Inherited "toString"]>
          (<["ROOT" := Node {| entries :=
                                 entry_list
                                   [ {| term := "toString"; definition := "d";
                                        relatedContext :=
                                          "Manually added by user" |} ];
                               content := Some ""; node_files := Some [] |}]>
             empty_store)).
Proof. vm_compute. reflexivity. Qed.

Lemma handleWikiAddManualEntry_Ok
    (term0 definition0 parentNode : string) (prev : WikiCache)
    (es : list WikiEntry) :
  entries_or_empty prev
    (if bool_decide (is_Some (Get prev parentNode)) then parentNode else "ROOT")
  = entry_list es ->
  handleWikiAddManualEntry term0 definition0 parentNode prev
  = Ok (<[term0 :=
            default (Node {| entries := entry_list [];
                             content := Some definition0;
                             node_files := Some [] |}) (Get prev term0)]>
          (<[(if bool_decide (is_Some (Get prev parentNode))
              then parentNode else "ROOT") :=
               Node (with_entries
                       (spread
                          (Some (default (Node blank_node)
                                   (Get prev
                                      (if bool_decide
                                            (is_Some (Get prev parentNode))
                                       then parentNode else "ROOT")))))
                       (es ++ [ {| term := term0; definition := definition0;
                                   relatedContext := "Manually added by user" |} ]))]>
             prev)).
Proof.
  set (target := if bool_decide (is_Some (Get prev parentNode))
                 then parentNode else "ROOT").
  intros Hes. unfold handleWikiAddManualEntry. fold target.
  assert (or_empty (entries_of (default (Node blank_node) (Get prev target)))
          = entry_list es) as ->; [|done].
  unfold entries_or_empty in Hes. by destruct (Get prev target).
Qed.

Lemma handleWikiAddManualEntry_Throw
    (term0 definition0 parentNode : string) (prev : WikiCache) :
  entries_or_empty prev
    (if bool_decide (is_Some (Get prev parentNode)) then parentNode else "ROOT")
  = Object_entries ->
  exists m, handleWikiAddManualEntry term0 definition0 parentNode prev = Throw m.
Proof.
  set (target := if bool_decide (is_Some (Get prev parentNode))
                 then parentNode else "ROOT").
  intros Hes. unfold handleWikiAddManualEntry. fold target.
  assert (or_empty (entries_of (default (Node blank_node) (Get prev target)))
          = Object_entries) as ->; [|by eexists].
  unfold entries_or_empty in Hes. by destruct (Get prev target).
Qed.

Lemma content_spread (g : option WikiValue) :
  default "" (content (spread (Some (default (Node blank_node) g))))
  = default "" (g ≫= content_of).
Proof. by destruct g as [[]|]. Qed.

Lemma files_spread (g : option WikiValue) :
  default [] (node_files (spread (Some (default (Node blank_node) g))))
  = default [] (g ≫= files_of).
Proof. by destruct g as [[]|]. Qed.

(** X16. Adding an entry under another node than the term itself.  The
    parent that is used is the given one when the store finds something
    under that name, in the store or on its prototype, and [ROOT]
    otherwise.  When the entries of that parent are the function
    [Object.entries], the call throws.  Otherwise the parent keeps its
    entries, notes and files and gets the new entry as its last; the term
    is a property of the store afterwards, holding what the store found
    under it before, be it inherited, and a new node when it found
    nothing; every other property is as before. *)
Theorem handleWikiAddManualEntry_effect
    (term0 definition0 parentNode : string) (prev : WikiCache) :
  term0 <> (if bool_decide (is_Some (Get prev parentNode))
            then parentNode else "ROOT") ->
  match entries_or_empty prev
          (if bool_decide (is_Some (Get prev parentNode))
           then parentNode else "ROOT") with
  | entry_list es =>
      exists next,
        handleWikiAddManualEntry term0 definition0 parentNode prev = Ok next
        /\ entries_or_empty next
             (if bool_decide (is_Some (Get prev parentNode))
              then parentNode else "ROOT")
           = entry_list
               (es ++ [ {| term := term0; definition := definition0;
                           relatedContext := "Manually added by user" |} ])
        /\ content_or_empty next
             (if bool_decide (is_Some (Get prev parentNode))
              then parentNode else "ROOT")
           = content_or_empty prev
               (if bool_decide (is_Some (Get prev parentNode))
                then parentNode else "ROOT")
        /\ files_or_empty next
             (if bool_decide (is_Some (Get prev parentNode))
              then parentNode else "ROOT")
           = files_or_empty prev
               (if bool_decide (is_Some (Get prev parentNode))
                then parentNode else "ROOT")
        /\ next !! term0
           = Some (default (Node {| entries := entry_list [];
                                    content := Some definition0;
                                    node_files := Some [] |})
                     (Get prev term0))
        /\ (forall k, k <> term0 ->
              k <> (if bool_decide (is_Some (Get prev parentNode))
                    then parentNode else "ROOT") ->
              next !! k = prev !! k)
  | _ =>
      exists m,
        handleWikiAddManualEntry term0 definition0 parentNode prev = Throw m
  end.
Proof.
  set (target := if bool_decide (is_Some (Get prev parentNode))
                 then parentNode else "ROOT").
  intros Hne.
  destruct (entries_or_empty prev target) as [|es|] eqn:Hes.
  - unfold entries_or_empty in Hes.
    by destruct (default no_entries (entries_of <$> Get prev target)).
  - eexists. split; [by apply handleWikiAddManualEntry_Ok|]. fold target.
    split.
    { unfold entries_or_empty.
      by rewrite Get_insert_ne, Get_insert_eq by done. }
    split.
    { unfold content_or_empty.
      rewrite Get_insert_ne, Get_insert_eq by done. simpl.
      apply content_spread. }
    split.
    { unfold files_or_empty.
      rewrite Get_insert_ne, Get_insert_eq by done. simpl.
      apply files_spread. }
    split; [by rewrite lookup_insert_eq|].
    intros k Hk1 Hk2. by rewrite !lookup_insert_ne.
  - by apply handleWikiAddManualEntry_Throw.
Qed.

Lemma handleWikiAddManualEntry_effect_witness :
  exists next,
    handleWikiAddManualEntry "X" "def X" "toString" nodes_A_X = Ok next
    /\ entries_or_empty next "toString" = entry_list ([] ++ [entry_X])
    /\ content_or_empty next "toString" = content_or_empty nodes_A_X "toString"
    /\ files_or_empty next "toString" = files_or_empty nodes_A_X "toString"
    /\ next !! "X"
       = Some (default (Node {| entries := entry_list [];
                                content := Some "def X";
                                node_files := Some [] |})
                 (Get nodes_A_X "X"))
    /\ (forall k, k <> "X" -> k <> "toString" -> next !! k = nodes_A_X !! k).
Proof.
  refine (handleWikiAddManualEntry_effect "X" "def X" "toString" nodes_A_X _).
  vm_compute. discriminate.
Defined.

(** X17. Adding a term under itself records nothing when the term is in
    the store and its entries are not the function [Object.entries]: the
    store is left exactly as it was, the new entry is lost. *)
Theorem handleWikiAddManualEntry_under_itself
    (term0 definition0 : string) (prev : WikiCache) :
  is_Some (prev !! term0) ->
  entries_or_empty prev term0 <> Object_entries ->
  handleWikiAddManualEntry term0 definition0 term0 prev = Ok prev.
Proof.
  intros [v Hv] Hfn.
  assert (Get prev term0 = Some v) as Hget by by apply Get_own.
  assert ((if bool_decide (is_Some (Get prev term0)) then term0 else "ROOT")
          = term0) as Htarget.
  { by rewrite bool_decide_eq_true_2 by (by rewrite Hget). }
  destruct (entries_or_empty prev term0) as [|es|] eqn:Hes; [| |done].
  { unfold entries_or_empty in Hes.
    by destruct (default no_entries (entries_of <$> Get prev term0)). }
  rewrite (handleWikiAddManualEntry_Ok term0 definition0 term0 prev es)
    by (by rewrite Htarget).
  rewrite Htarget, Hget. simpl. rewrite insert_insert_eq. by rewrite insert_id.
Qed.

Lemma handleWikiAddManualEntry_under_itself_witness :
  handleWikiAddManualEntry "A" "again" "A" (<["A" := Node blank_node]> ∅)
  = Ok (<["A" := Node blank_node]> ∅).
Proof.
  apply (handleWikiAddManualEntry_under_itself "A" "again"
           (<["A" := Node blank_node]> ∅)).
  - rewrite lookup_insert_eq. eauto.
  - vm_compute. discriminate.
Defined.

(** X18. A move away from a node of the store whose entries are an array,
    to a parent that is not found or whose entries are an array without
    an entry of that name: the move takes every entry of that name out of
    the current node, keeps the other entries of the current node in their
    order, and appends one entry of that name to the new parent;
    afterwards the current node no longer lists the term, the new parent
    does, and every other property is as before. *)
Theorem handleWikiMoveNode_effect
    (term0 definition0 newParent : string) (wikiPath0 : list string)
    (prev : WikiCache) (oldNode : WikiNodeData)
    (oldEntries newEntries : list WikiEntry) :
  current_term wikiPath0 <> newParent ->
  prev !! current_term wikiPath0 = Some (Node oldNode) ->
  entries oldNode = entry_list oldEntries ->
  entries_of (default (Node blank_node) (Get prev newParent))
  = entry_list newEntries ->
  existsb (fun e => String.eqb (term e) term0) newEntries = false ->
  exists next,
    handleWikiMoveNode term0 definition0 newParent wikiPath0 prev = Ok next
    /\ entries_or_empty next (current_term wikiPath0)
       = entry_list
           (List.filter (fun e => negb (String.eqb (term e) term0)) oldEntries)
    /\ entries_or_empty next newParent
       = entry_list
           (newEntries
            ++ [ {| term := term0; definition := definition0;
                    relatedContext := "Moved from " ++ current_term wikiPath0 |} ])
    /\ ~ lists_term next (current_term wikiPath0) term0
    /\ lists_term next newParent term0
    /\ (forall k, k <> current_term wikiPath0 -> k <> newParent ->
                  next !! k = prev !! k).
Proof.
  intros Hne Hold Hoe Hnes Hdup. unfold handleWikiMoveNode.
  set (cur := current_term wikiPath0) in *.
  rewrite (proj2 (String.eqb_neq cur newParent) Hne), (Get_own _ _ _ Hold).
  simpl. rewrite Hoe, Hnes, Hdup.
  eexists. split; [reflexivity|].
  split.
  { unfold entries_or_empty. by rewrite Get_insert_ne, Get_insert_eq. }
  split.
  { unfold entries_or_empty. by rewrite Get_insert_eq. }
  split.
  { rewrite lists_term_insert_ne, lists_term_insert_eq by done.
    intros (es & e & [= <-] & He & Ht).
    apply list_elem_of_In, filter_In in He as [_ Hk].
    by rewrite Ht, String.eqb_refl in Hk. }
  split.
  { apply lists_term_insert_eq. eexists _, _. split; [reflexivity|].
    split; [apply elem_of_app; right; by apply list_elem_of_singleton|done]. }
  intros k Hk1 Hk2. by rewrite !lookup_insert_ne.
Qed.

Lemma handleWikiMoveNode_effect_witness :
  exists next,
    handleWikiMoveNode "X" "def X" "A" ["ROOT"] nodes_A_X = Ok next
    /\ entries_or_empty next (current_term ["ROOT"])
       = entry_list
           (List.filter (fun e => negb (String.eqb (term e) "X"))
                        [entry_A; entry_X])
    /\ entries_or_empty next "A"
       = entry_list
           ([] ++ [ {| term := "X"; definition := "def X";
                       relatedContext := "Moved from " ++ current_term ["ROOT"] |} ])
    /\ ~ lists_term next (current_term ["ROOT"]) "X"
    /\ lists_term next "A" "X"
    /\ (forall k, k <> current_term ["ROOT"] -> k <> "A" ->
                  next !! k = nodes_A_X !! k).
Proof.
  apply (handleWikiMoveNode_effect "X" "def X" "A" ["ROOT"] nodes_A_X
           {| entries := entry_list [entry_A; entry_X]; content := Some "";
              node_files := Some [] |}
           [entry_A; entry_X] []).
  - discriminate.
  - vm_compute. reflexivity.
  - reflexivity.
  - vm_compute. reflexivity.
  - reflexivity.
Defined.

(** X19. A move into a parent that already lists an entry of that name is
    turned down: the store is left exactly as it was, and the entry stays
    in the current node. *)
Theorem handleWikiMoveNode_duplicate_rejected
    (term0 definition0 newParent : string) (wikiPath0 : list string)
    (prev : WikiCache) (oldNode newNode : WikiNodeData)
    (oldEntries newEntries : list WikiEntry) :
  prev !! current_term wikiPath0 = Some (Node oldNode) ->
  entries oldNode = entry_list oldEntries ->
  prev !! newParent = Some (Node newNode) ->
  entries newNode = entry_list newEntries ->
  existsb (fun e => String.eqb (term e) term0) newEntries = true ->
  handleWikiMoveNode term0 definition0 newParent wikiPath0 prev = Ok prev.
Proof. apply handleWikiMoveNode_rejects_duplicate. Qed.

Lemma handleWikiMoveNode_duplicate_rejected_witness :
  handleWikiMoveNode "X" "other X" "A" ["ROOT"]
    (<["A" := Node {| entries := entry_list [entry_X]; content := Some "def A";
                      node_files := Some [] |}]> nodes_A_X)
  = Ok (<["A" := Node {| entries := entry_list [entry_X];
                         content := Some "def A";
                         node_files := Some [] |}]> nodes_A_X).
Proof.
  apply (handleWikiMoveNode_duplicate_rejected "X" "other X" "A" ["ROOT"]
           (<["A" := Node {| entries := entry_list [entry_X];
                             content := Some "def A";
                             node_files := Some [] |}]> nodes_A_X)
           {| entries := entry_list [entry_A; entry_X]; content := Some "";
              node_files := Some [] |}
           {| entries := entry_list [entry_X]; content := Some "def A";
              node_files := Some [] |}
           [entry_A; entry_X] [entry_X]).
  - vm_compute. reflexivity.
  - reflexivity.
  - vm_compute. reflexivity.
  - reflexivity.
  - reflexivity.
Defined.

(** X20. A move that returns keeps the invariant that no term is listed
    under two parents, provided the term that is moved is listed nowhere
    but in the current node or the new parent. *)
Theorem handleWikiMoveNode_single_parent
    (term0 definition0 newParent : string) (wikiPath0 : list string)
    (prev next : WikiCache) :
  single_parent prev ->
  (forall p, lists_term prev p term0 ->
             p = current_term wikiPath0 \/ p = newParent) ->
  handleWikiMoveNode term0 definition0 newParent wikiPath0 prev = Ok next ->
  single_parent next.
Proof. apply handleWikiMoveNode_keeps_single_parent. Qed.

Lemma handleWikiMoveNode_single_parent_witness :
  single_parent
    (<["A" := Node (with_entries {| entries := entry_list [];
                                    content := Some "def A";
                                    node_files := Some [] |}
                      ([] ++ [ {| term := "X"; definition := "def X";
                                  relatedContext := "Moved from ROOT" |} ]))]>
       (<["ROOT" := Node (with_entries
                            {| entries := entry_list [entry_A; entry_X];
                               content := Some ""; node_files := Some [] |}
                            [entry_A])]> nodes_A_X)).
Proof.
  apply (handleWikiMoveNode_single_parent "X" "def X" "A" ["ROOT"] nodes_A_X).
  - intros t p q Hp%lists_term_nodes_A_X Hq%lists_term_nodes_A_X. congruence.
  - intros p Hp%lists_term_nodes_A_X. by left.
  - vm_compute. reflexivity.
Defined.

Lemma or_empty_idemp (e : Entries) : or_empty (or_empty e) = or_empty e.
Proof. by destruct e. Qed.

Lemma entries_or_empty_insert (prev : WikiCache) t node :
  entries_or_empty (<[t := Node node]> prev) t = or_empty (entries node).
Proof. unfold entries_or_empty. by rewrite Get_insert_eq. Qed.

Lemma content_or_empty_insert (prev : WikiCache) t node :
  content_or_empty (<[t := Node node]> prev) t = default "" (content node).
Proof. unfold content_or_empty. by rewrite Get_insert_eq. Qed.

Lemma files_or_empty_insert (prev : WikiCache) t node :
  files_or_empty (<[t := Node node]> prev) t = default [] (node_files node).
Proof. unfold files_or_empty. by rewrite Get_insert_eq. Qed.

(** X21. The four field handlers change one field of one node.  Replacing
    the entries keeps notes and attachments; updating the notes keeps
    entries and attachments; attaching a file appends it and removing one
    drops the files of that id, both keeping entries and notes; and no
    handler touches another property.  (An absent field reads as empty.
    What is read under a name may be inherited; removing a file then
    stores a node without the [entries] that [Object], the inherited
    [constructor], has.) *)
Theorem wiki_field_handlers_frame (t : string) (prev : WikiCache) :
  (forall data,
      entries_or_empty (handleWikiGenerate t data prev) t = entry_list data
      /\ content_or_empty (handleWikiGenerate t data prev) t
         = content_or_empty prev t
      /\ files_or_empty (handleWikiGenerate t data prev) t
         = files_or_empty prev t)
  /\ (forall c,
        entries_or_empty (handleWikiUpdateContent t c prev) t
        = entries_or_empty prev t
        /\ content_or_empty (handleWikiUpdateContent t c prev) t = c
        /\ files_or_empty (handleWikiUpdateContent t c prev) t
           = files_or_empty prev t)
  /\ (forall f,
        entries_or_empty (handleWikiAddFile t f prev) t
        = entries_or_empty prev t
        /\ content_or_empty (handleWikiAddFile t f prev) t
           = content_or_empty prev t
        /\ files_or_empty (handleWikiAddFile t f prev) t
           = files_or_empty prev t ++ [f])
  /\ (forall i,
        (Get prev t <> Some (Inherited "constructor") ->
         entries_or_empty (handleWikiRemoveFile t i prev) t
         = entries_or_empty prev t)
        /\ content_or_empty (handleWikiRemoveFile t i prev) t
           = content_or_empty prev t
        /\ files_or_empty (handleWikiRemoveFile t i prev) t
           = List.filter (fun f => negb (String.eqb (file_id f) i))
                         (files_or_empty prev t))
  /\ (forall k, k <> t ->
        (forall data, handleWikiGenerate t data prev !! k = prev !! k)
        /\ (forall c, handleWikiUpdateContent t c prev !! k = prev !! k)
        /\ (forall f, handleWikiAddFile t f prev !! k = prev !! k)
        /\ (forall i, handleWikiRemoveFile t i prev !! k = prev !! k)).
Proof.
  split; [|split; [|split; [|split]]].
  - intros data. unfold handleWikiGenerate.
    by rewrite entries_or_empty_insert, content_or_empty_insert,
      files_or_empty_insert.
  - intros c. unfold handleWikiUpdateContent.
    rewrite entries_or_empty_insert, content_or_empty_insert,
      files_or_empty_insert. simpl.
    split; [|done]. unfold entries_or_empty. apply or_empty_idemp.
  - intros f. unfold handleWikiAddFile.
    rewrite entries_or_empty_insert, content_or_empty_insert,
      files_or_empty_insert. simpl.
    split; [|done]. unfold entries_or_empty. apply or_empty_idemp.
  - intros i. unfold handleWikiRemoveFile.
    rewrite entries_or_empty_insert, content_or_empty_insert,
      files_or_empty_insert. simpl.
    split; [|split; [|done]].
    + intros Hobj. unfold entries_or_empty.
      destruct (Get prev t) as [[node|name]|]; simpl; try done.
      destruct (String.eqb_spec name "constructor") as [->|]; done.
    + unfold content_or_empty. by destruct (Get prev t) as [[]|].
  - intros k Hk.
    unfold handleWikiGenerate, handleWikiUpdateContent, handleWikiAddFile,
      handleWikiRemoveFile.
    repeat split; intros; by rewrite lookup_insert_ne.
Qed.

(** X22. Removing a file at a name that is no property of the store puts a
    node without [entries] there, and a move out of that node then
    throws. *)
Theorem handleWikiRemoveFile_missing_node
    (fileId term0 definition0 newParent : string) (wikiPath0 : list string)
    (prev : WikiCache) :
  prev !! current_term wikiPath0 = None ->
  current_term wikiPath0 <> newParent ->
  entries_of <$> (handleWikiRemoveFile (current_term wikiPath0) fileId prev
                    !! current_term wikiPath0)
  = Some no_entries
  /\ exists m,
       handleWikiMoveNode term0 definition0 newParent wikiPath0
         (handleWikiRemoveFile (current_term wikiPath0) fileId prev)
       = Throw m.
Proof.
  intros Hnone Hne.
  assert (entries (spread (Get prev (current_term wikiPath0))) = no_entries)
    as Hspread.
  { unfold Get. rewrite Hnone. by case_bool_decide. }
  split.
  { unfold handleWikiRemoveFile. rewrite lookup_insert_eq. simpl.
    by rewrite Hspread. }
  apply handleWikiMoveNode_throw_cases; [done|]. left.
  unfold entry_array, handleWikiRemoveFile. rewrite Get_insert_eq. simpl.
  by rewrite Hspread.
Qed.

Lemma handleWikiRemoveFile_missing_node_witness :
  entries_of <$> (handleWikiRemoveFile (current_term ["ROOT"]) "f1" empty_store
                    !! current_term ["ROOT"])
  = Some no_entries
  /\ exists m,
       handleWikiMoveNode "X" "def X" "A" ["ROOT"]
         (handleWikiRemoveFile (current_term ["ROOT"]) "f1" empty_store)
       = Throw m.
Proof.
  apply (handleWikiRemoveFile_missing_node "f1" "X" "def X" "A" ["ROOT"]
           empty_store).
  - reflexivity.
  - discriminate.
Defined.

(** ** Risk register *)

Lemma single_adds_from_register risks0 : forall data,
  fold_left (fun acc r => handleAddRiskFromLibrary (bulk_uuid r) (bulk_risk r)
                            (bulk_category r) (bulk_source r) acc)
            risks0 (Some data)
  = Some {| register_risks :=
              register_risks data
              ++ map (fun r => library_risk (bulk_uuid r) (bulk_risk r)
                                 (bulk_category r) (bulk_source r)) risks0;
            gapAnalysis := gapAnalysis data |}.
Proof.
  induction risks0 as [|r risks0 IH]; intros data; simpl.
  - rewrite app_nil_r. by destruct data.
  - unfold handleAddRiskFromLibrary at 2. rewrite IH. simpl.
    by rewrite <- app_assoc.
Qed.

(** X23. Adding a list of risks in bulk gives the register that adding
    them one by one gives, started from the register made of [prev] or, when
    there is none, the empty one; the gap analysis is kept.  So a bulk add
    of no risks turns an absent register into an empty one. *)
Theorem handleAddRisksBulk_one_by_one (risks0 : list BulkRisk)
    (prev : option RiskAnalysisData) :
  handleAddRisksBulk risks0 prev
  = fold_left (fun acc r => handleAddRiskFromLibrary (bulk_uuid r) (bulk_risk r)
                              (bulk_category r) (bulk_source r) acc)
              risks0 (Some (existing_register prev))
  /\ (gapAnalysis <$> handleAddRisksBulk risks0 prev)
     = Some (gapAnalysis (existing_register prev))
  /\ handleAddRisksBulk [] None
     = Some {| register_risks := []; gapAnalysis := [] |}.
Proof.
  split; [by rewrite single_adds_from_register|]. split; reflexivity.
Qed.

Lemma update_map_ids u l :
  map risk_id (map (fun r => if String.eqb (risk_id r) (risk_id u) then u else r) l)
  = map risk_id l.
Proof.
  induction l as [|r l IH]; simpl; [done|]. rewrite IH. f_equal.
  by destruct (String.eqb_spec (risk_id r) (risk_id u)).
Qed.

Lemma update_map_idem u l :
  map (fun r => if String.eqb (risk_id r) (risk_id u) then u else r)
      (map (fun r => if String.eqb (risk_id r) (risk_id u) then u else r) l)
  = map (fun r => if String.eqb (risk_id r) (risk_id u) then u else r) l.
Proof.
  induction l as [|r l IH]; simpl; [done|]. rewrite IH. f_equal.
  destruct (String.eqb_spec (risk_id r) (risk_id u)) as [Heq|Hne].
  - by rewrite String.eqb_refl.
  - by rewrite (proj2 (String.eqb_neq _ _) Hne).
Qed.

(** X24. Updating a risk never adds or removes one: an absent register
    stays absent; otherwise the identifiers are the same, in the same
    order, every item is the updated risk or the item that was there, the
    gap analysis is kept, and the same update a second time changes
    nothing. *)
Theorem handleUpdateRisk_keeps_register (updatedRisk : RiskItem)
    (prev : option RiskAnalysisData) :
  match prev, handleUpdateRisk updatedRisk prev with
  | None, None => True
  | Some data, Some data' =>
      map risk_id (register_risks data') = map risk_id (register_risks data)
      /\ Forall2 (fun r r' => r' = updatedRisk \/ r' = r)
                 (register_risks data) (register_risks data')
      /\ gapAnalysis data' = gapAnalysis data
  | _, _ => False
  end
  /\ handleUpdateRisk updatedRisk (handleUpdateRisk updatedRisk prev)
     = handleUpdateRisk updatedRisk prev.
Proof.
  destruct prev as [data|]; simpl; [|done].
  split; [|by rewrite update_map_idem].
  split; [apply update_map_ids|]. split; [|done].
  induction (register_risks data) as [|r l IH]; simpl; constructor; [|done].
  destruct (String.eqb _ _); auto.
Qed.

(** ** Graph import and snapshot round trip *)

(** X25. Importing a graph accepts exactly the parsed values that are an
    object or an array; it then replaces the graph and resets the path to
    [ROOT], leaving documents and risk register alone.  On any other
    value, or a text that does not parse, only an error entry is added to
    the log. *)
Theorem handleImportWiki_policy (JSON_parse : string -> Result JSON)
    (content0 : string) (st : AppState) :
  match JSON_parse content0 with
  | Ok (JObj members) =>
      handleImportWiki JSON_parse content0 st
      = addLog success "Wiki graph imported successfully." None
          {| files := files st; wikiCache := JObj members;
             riskData := riskData st; wikiPath := ["ROOT"]; logs := logs st |}
  | Ok (JArr items) =>
      handleImportWiki JSON_parse content0 st
      = addLog success "Wiki graph imported successfully." None
          {| files := files st; wikiCache := JArr items;
             riskData := riskData st; wikiPath := ["ROOT"]; logs := logs st |}
  | Ok _ =>
      handleImportWiki JSON_parse content0 st
      = addLog error "Failed to import wiki JSON" (Some "Invalid JSON structure") st
  | Throw m =>
      handleImportWiki JSON_parse content0 st
      = addLog error "Failed to import wiki JSON" (Some m) st
  end.
Proof.
  unfold handleImportWiki.
  destruct (JSON_parse content0) as [[]|m]; reflexivity.
Qed.

(** X26. Importing what was exported from a state with an array of
    documents and a graph of type object restores the documents and the
    graph and resets the path; the risk register is restored when the
    exported one is truthy, and otherwise the importing state keeps its
    own.  Imported into the exporting state itself, all three are as they
    were. *)
Theorem export_then_import (JSON_parse : string -> Result JSON)
    (timestamp content0 : string) (st st2 : AppState) :
  JSON_parse content0 = Ok (export_document timestamp st) ->
  Array_isArray (Some (files st)) = true ->
  typeof (Some (wikiCache st)) = "object" ->
  files (handleImportContext JSON_parse content0 st2) = files st
  /\ wikiCache (handleImportContext JSON_parse content0 st2) = wikiCache st
  /\ riskData (handleImportContext JSON_parse content0 st2)
     = (if truthy (Some (riskData st)) then riskData st else riskData st2)
  /\ wikiPath (handleImportContext JSON_parse content0 st2) = ["ROOT"]
  /\ riskData (handleImportContext JSON_parse content0 st) = riskData st.
Proof.
  intros Hparse Hfiles Hwiki.
  assert (forall s,
    files (handleImportContext JSON_parse content0 s) = files st
    /\ wikiCache (handleImportContext JSON_parse content0 s) = wikiCache st
    /\ riskData (handleImportContext JSON_parse content0 s)
       = (if truthy (Some (riskData st)) then riskData st else riskData s)
    /\ wikiPath (handleImportContext JSON_parse content0 s) = ["ROOT"]) as H.
  { intros s. unfold handleImportContext. rewrite Hparse. unfold export_document.
    destruct (files st) as [| | | |items|]; try done.
    destruct (wikiCache st); try done; cbn; by destruct (riskData st). }
  destruct (H st2) as (? & ? & ? & ?). destruct (H st) as (_ & _ & Hr & _).
  repeat split; try done. rewrite Hr. by destruct (truthy _).
Qed.

Lemma export_then_import_witness :
  files (handleImportContext
           (parse_as "snapshot" (export_document "2025-01-01T00:00:00.000Z" busy_state))
           "snapshot" busy_state) = files busy_state
  /\ wikiCache (handleImportContext
           (parse_as "snapshot" (export_document "2025-01-01T00:00:00.000Z" busy_state))
           "snapshot" busy_state) = wikiCache busy_state
  /\ riskData (handleImportContext
           (parse_as "snapshot" (export_document "2025-01-01T00:00:00.000Z" busy_state))
           "snapshot" busy_state)
     = (if truthy (Some (riskData busy_state)) then riskData busy_state
        else riskData busy_state)
  /\ wikiPath (handleImportContext
           (parse_as "snapshot" (export_document "2025-01-01T00:00:00.000Z" busy_state))
           "snapshot" busy_state) = ["ROOT"]
  /\ riskData (handleImportContext
           (parse_as "snapshot" (export_document "2025-01-01T00:00:00.000Z" busy_state))
           "snapshot" busy_state) = riskData busy_state.
Proof.
  apply (export_then_import
           (parse_as "snapshot" (export_document "2025-01-01T00:00:00.000Z" busy_state))
           "2025-01-01T00:00:00.000Z" "snapshot" busy_state busy_state);
    reflexivity.
Defined.

(** ** Parent suggestion *)

Lemma suggestWikiParent_failure generateContent JSON_parse newTerm newDefinition
    existingNodes :
  (forall call parts, soft_failure generateContent JSON_parse call parts) ->
  exists reasoning,
    suggestWikiParent generateContent JSON_parse newTerm newDefinition
                      existingNodes
    = suggestion "ROOT" reasoning.
Proof.
  intros Hsoft. unfold suggestWikiParent.
  destruct (Z.of_nat (length existingNodes) <=? 1); [by eexists|].
  match goal with
  | |- context [generateContent 0%nat ?parts] =>
      specialize (Hsoft 0%nat parts); unfold soft_failure in Hsoft;
      destruct (generateContent 0%nat parts) as [response|m]
  end; [|by eexists].
  simpl. destruct (response_text response) as [t|]; [|by eexists].
  destruct Hsoft as [-> | [m Hm]]; [by eexists|].
  destruct t as [|a t]; [by eexists|]. rewrite Hm. by eexists.
Qed.

(** X27. The parent selected after an automatic suggestion is the one
    selected before, a node of the store, or [ROOT]: a suggestion that
    names no node of the store is ignored.  For a term that is not empty,
    the selection is [ROOT] when the store has at most one node (the model
    is not consulted) and when the model call fails softly. *)
Theorem handleAutoSuggestParent_choice
    (generateContent : nat -> list Part -> Result Response)
    (JSON_parse : string -> Result JSON)
    (newTerm newDefinition : string) (allNodes : list string)
    (targetParent : string) :
  (handleAutoSuggestParent generateContent JSON_parse newTerm newDefinition
                           allNodes targetParent = targetParent
   \/ handleAutoSuggestParent generateContent JSON_parse newTerm newDefinition
                              allNodes targetParent ∈ allNodes
   \/ handleAutoSuggestParent generateContent JSON_parse newTerm newDefinition
                              allNodes targetParent = "ROOT")
  /\ (newTerm <> "" -> Z.of_nat (length allNodes) <= 1 ->
      handleAutoSuggestParent generateContent JSON_parse newTerm newDefinition
                              allNodes targetParent = "ROOT")
  /\ (newTerm <> "" ->
      (forall call parts, soft_failure generateContent JSON_parse call parts) ->
      handleAutoSuggestParent generateContent JSON_parse newTerm newDefinition
                              allNodes targetParent = "ROOT").
Proof.
  split; [|split].
  - unfold handleAutoSuggestParent.
    destruct (String.eqb newTerm ""); [by left|].
    destruct (handleWikiSuggestParent _ _ _ _ _) as [[| | |p| |]|]; try by left.
    destruct (truthy (Some (JStr p))); [|by left]. simpl.
    case_bool_decide; simpl; [by right; left|].
    destruct (String.eqb_spec p "ROOT"); [by right; right|by left].
  - intros Hne Hlen. unfold handleAutoSuggestParent.
    rewrite (proj2 (String.eqb_neq _ _) Hne).
    unfold handleWikiSuggestParent, suggestWikiParent.
    destruct (Z.leb_spec (Z.of_nat (length allNodes)) 1); [|lia].
    simpl. by rewrite orb_true_r.
  - intros Hne Hsoft. unfold handleAutoSuggestParent.
    rewrite (proj2 (String.eqb_neq _ _) Hne).
    unfold handleWikiSuggestParent.
    destruct (suggestWikiParent_failure generateContent JSON_parse newTerm
                newDefinition allNodes Hsoft) as [reasoning ->].
    simpl. by rewrite orb_true_r.
Qed.

(** ** Text generation and the notes of a node *)

Lemma generateTextResponse_nonempty generateContent prompt files0 :
  match generateTextResponse generateContent prompt files0 with
  | Ok text => text <> ""
  | Throw m => m <> ""
  end.
Proof.
  unfold generateTextResponse.
  destruct (generateContent 0%nat _) as [response|m]; simpl.
  - destruct (response_text response) as [[|a t]|]; simpl; done.
  - destruct (String.eqb_spec m ""); done.
Qed.

(** X28. Populating the notes of a node from its files: without attached
    files the model is not called and only a warning is logged.  With
    files, the loading flag is off at the end, and either the model gave a
    text, which is not empty and becomes the notes of the node while its
    entries and files stay, or the call failed, the graph is untouched and
    the error entry carries a message that is not empty. *)
Theorem handleWikiAutoPopulate_outcome
    (generateContent : nat -> list Part -> Result Response) (v : WikiView) :
  if Z.of_nat (length (files_or_empty (wiki_cache (view_wiki v))
                         (current_term (wiki_path (view_wiki v))))) =? 0
  then
    handleWikiAutoPopulate generateContent v
    = view_log warning "No files attached to this node to populate content."
               None v
  else
    view_isLoading (handleWikiAutoPopulate generateContent v) = false
    /\ wiki_path (view_wiki (handleWikiAutoPopulate generateContent v))
       = wiki_path (view_wiki v)
    /\ ((exists text,
           text <> ""
           /\ wiki_cache (view_wiki (handleWikiAutoPopulate generateContent v))
              = handleWikiUpdateContent
                  (current_term (wiki_path (view_wiki v))) text
                  (wiki_cache (view_wiki v)))
        \/ (exists m,
              m <> ""
              /\ view_wiki (handleWikiAutoPopulate generateContent v)
                 = view_wiki v
              /\ last (view_logs (handleWikiAutoPopulate generateContent v))
                 = Some {| level := error;
                           message := "Failed to populate node content.";
                           details := Some m |})).
Proof.
  unfold handleWikiAutoPopulate.
  destruct (Z.of_nat _ =? 0); [done|].
  split; [done|].
  match goal with
  | |- context [generateTextResponse generateContent ?p ?f] =>
      pose proof (generateTextResponse_nonempty generateContent p f) as Hne;
      destruct (generateTextResponse generateContent p f) as [text|m]
  end; simpl.
  - split; [done|]. left. by exists text.
  - split; [done|]. right. exists m. split; [done|]. split; [done|].
    apply last_snoc.
Qed.

(** ** Chat messages *)

Lemma string_app_assoc (a b c : string) : ((a ++ b) ++ c = a ++ (b ++ c))%string.
Proof.
  induction a as [|x a IH]; [reflexivity|].
  change (String x ((a ++ b) ++ c) = String x (a ++ (b ++ c)))%string.
  by rewrite IH.
Qed.

Lemma string_app_nil_r (a : string) : (a ++ "")%string = a.
Proof.
  induction a as [|x a IH]; [reflexivity|].
  change (String x (a ++ "") = String x a)%string. by rewrite IH.
Qed.

Lemma map_other_ids (f : ChatMessage -> ChatMessage) botMsgId l :
  Forall (fun msg => msg_id msg <> botMsgId) l ->
  map (fun msg => if String.eqb (msg_id msg) botMsgId then f msg else msg) l = l.
Proof.
  induction 1 as [|msg l Hmsg _ IH]; simpl; [done|].
  by rewrite (proj2 (String.eqb_neq _ _) Hmsg), IH.
Qed.

Lemma run_chunk_callbacks botMsgId chunks : forall before sender0 text0 e ts loading logs0 s,
  Forall (fun msg => msg_id msg <> botMsgId) before ->
  fold_left (fun acc cb => run_callback botMsgId cb acc) (chunk_callbacks chunks)
    {| messages := before ++ [ {| msg_id := botMsgId; msg_sender := sender0;
                                  msg_text := text0; msg_isError := e;
                                  msg_timestamp := ts |} ];
       chat_isLoading := loading; chat_logs := logs0; chat_session := s |}
  = {| messages := before ++ [ {| msg_id := botMsgId; msg_sender := sender0;
                                  msg_text := text0 ++ streamed_text chunks;
                                  msg_isError := e; msg_timestamp := ts |} ];
       chat_isLoading := loading; chat_logs := logs0; chat_session := s |}.
Proof.
  induction chunks as [|c chunks IH]; intros before sender0 text0 e ts loading logs0 s Hb.
  - simpl. by rewrite string_app_nil_r.
  - destruct c as [t|]; [|apply IH; done].
    cbn [chunk_callbacks omap list_omap streamed_text].
    destruct (String.eqb_spec t "") as [->|Hne]; [by apply IH|].
    cbn [fold_left run_callback messages chat_isLoading chat_logs chat_session].
    rewrite map_app, map_other_ids by done. cbn [map msg_id msg_sender msg_text msg_isError msg_timestamp].
    rewrite String.eqb_refl. rewrite IH by done. 
    by rewrite string_app_assoc.
Qed.

(** X29. Sending a message, the identifier of the reply being new: the
    messages afterwards are the ones before, the user's message, and one
    reply.  When the stream completes, the reply holds the text of all
    chunks in order; when it fails, the reply holds only the error text and
    is marked as an error, and what was streamed before is gone.  Either
    way the loading flag is off and the session is the one that
    [streamGeminiResponse] left. *)
Theorem handleSendMessage_reply (userMsgId botMsgId : string)
    (userNow botNow : Z) (text : string) (files0 : list LocalFile)
    (stream : Stream) (v : ChatView) :
  userMsgId <> botMsgId ->
  Forall (fun msg => msg_id msg <> botMsgId) (messages v) ->
  messages (handleSendMessage userMsgId botMsgId userNow botNow text files0
                              stream v)
  = messages v
    ++ [ {| msg_id := userMsgId; msg_sender := USER; msg_text := text;
            msg_isError := None; msg_timestamp := userNow |};
         {| msg_id := botMsgId; msg_sender := BOT;
            msg_text :=
              match stream_error stream with
              | None => streamed_text (stream_chunks stream)
              | Some m =>
                  "Error: " ++ (if String.eqb m ""
                                then "An error occurred while contacting Gemini."
                                else m)
              end;
            msg_isError :=
              match stream_error stream with
              | None => None
              | Some _ => Some true
              end;
            msg_timestamp := botNow |} ]
  /\ chat_isLoading (handleSendMessage userMsgId botMsgId userNow botNow text
                                       files0 stream v) = false
  /\ chat_session (handleSendMessage userMsgId botMsgId userNow botNow text
                                     files0 stream v)
     = ensure_session files0 (chat_session v).
Proof.
  intros Hids Hfresh. unfold handleSendMessage, streamGeminiResponse.
  cbn [fst snd]. rewrite fold_left_app.
  assert (Forall (fun msg => msg_id msg <> botMsgId)
            (messages v ++ [ {| msg_id := userMsgId; msg_sender := USER;
                                msg_text := text; msg_isError := None;
                                msg_timestamp := userNow |} ])) as Hbefore.
  { apply Forall_app. split; [done|]. by constructor. }
  rewrite run_chunk_callbacks by done.
  destruct (stream_error stream) as [m|];
    cbn [fold_left run_callback messages chat_isLoading chat_logs chat_session];
    rewrite ?map_app, ?map_other_ids by done; simpl;
    rewrite ?String.eqb_refl, ?(proj2 (String.eqb_neq _ _) Hids), <- ?app_assoc;
    done.
Qed.

Lemma handleSendMessage_reply_witness :
  messages (handleSendMessage "u1" "b1" 10 11 "hello" []
              {| stream_chunks := [Some "par"; None; Some "tial"];
                 stream_error := Some "quota exceeded" |} empty_chat)
  = messages empty_chat
    ++ [ {| msg_id := "u1"; msg_sender := USER; msg_text := "hello";
            msg_isError := None; msg_timestamp := 10 |};
         {| msg_id := "b1"; msg_sender := BOT;
            msg_text := "Error: " ++ (if String.eqb "quota exceeded" ""
                                      then "An error occurred while contacting Gemini."
                                      else "quota exceeded");
            msg_isError := Some true; msg_timestamp := 11 |} ].
Proof.
  refine (proj1 (handleSendMessage_reply "u1" "b1" 10 11 "hello" []
                   {| stream_chunks := [Some "par"; None; Some "tial"];
                      stream_error := Some "quota exceeded" |} empty_chat _ _)).
  - discriminate.
  - constructor.
Defined.
